(** * ophyd.userapi.scan_api: trajectory generation and the scan lifecycle

  A shallow embedding of [src/ophyd/userapi/scan_api.py].

  - Python floats and [np.float64] values are IEEE binary64 numbers: the
    kernel's primitive [float].
  - Python integers are [Z]. The arrays numpy builds from [npts] hold
    64-bit signed integers: sums and products of their elements wrap
    around modulo 2^64 ([np.int64]). The sample counts handed in are
    integers that fit in 64 bits; what numpy makes of larger ones (arrays
    of unsigned integers or of Python objects) is outside the model.
  - A method that may raise, or loop forever, returns an [outcome].
  - Methods of [Scan] run in a state monad over the scan object, the
    outside world and a trace of the calls [run] makes. *)

From Stdlib Require Import ZArith List Floats.PrimFloat Numbers.Cyclic.Int63.Uint63.
From stdpp Require Import base list gmap strings.

Local Open Scope Z_scope.

(** ** Outcomes of Python calls *)

Inductive exn : Type :=
| IndexError
| ValueError
| AttributeError
| Failure (msg : string).

(** [Diverge] stands for a call that never returns (the polling loop of
  [DScan.postScan] is the only loop of the file without a bound). *)
Inductive outcome (A : Type) : Type :=
| Ret (a : A)
| Raise (e : exn)
| Diverge.
Arguments Ret {A} a.
Arguments Raise {A} e.
Arguments Diverge {A}.

#[global] Instance outcome_ret : MRet outcome := @Ret.
#[global] Instance outcome_bind : MBind outcome := fun A B f m =>
  match m with
  | Ret a => f a
  | Raise e => Raise e
  | Diverge => Diverge
  end.

(** ** Scalars and sequences *)

(** A user argument is a scalar or an iterable. *)
Inductive arg (A : Type) : Type :=
| One (a : A)
| Many (l : list A).
Arguments One {A} a.
Arguments Many {A} l.

(** [ensure_iterator(i)]: [i] itself when it has [__iter__], else [[i]]. *)
Definition ensure_iterator {A} (i : arg A) : list A :=
  match i with
  | Many l => l
  | One a => [a]
  end.

(** ** The numpy functions the module calls *)

Module np.

(** An integer as a float; the integers converted here are array indices
    and lengths, below 2^53. *)
Definition of_Z (z : Z) : float := of_uint63 (Uint63.of_Z z).

(** The value a 64-bit signed integer holds after an operation whose
    exact result is [z]: [z] modulo 2^64, between -2^63 and 2^63 - 1. *)
Definition int64 (z : Z) : Z := (z + 2 ^ 63) mod 2 ^ 64 - 2 ^ 63.

(** [a.prod()] of an [int64] array: the elements multiplied one after the
    other, every product wrapped; the empty product is 1. *)
Definition prod (a : list Z) : Z := foldl (fun acc x => int64 (acc * x)) 1 a.

(** [np.linspace(start, stop, num)] with [endpoint=True]. A negative
    [num] is refused. Otherwise the samples are [arange(0, num)], scaled,
    plus [start]: scaled by [step = (stop - start) / (num - 1)] when there
    are at least two of them (divided by [num - 1] and multiplied by
    [stop - start] instead when [step == 0]), by [stop - start] when there
    is at most one; with two samples or more the last one is then set to
    [stop]. *)
Definition linspace (start stop : float) (num : Z) : outcome (list float) :=
  if num <? 0 then Raise ValueError
  else
    let div := num - 1 in
    let delta := (stop - start)%float in
    let y := of_Z <$> seqZ 0 num in
    let y :=
      if 0 <? div then
        let step := (delta / of_Z div)%float in
        if (step =? 0)%float
        then (fun i => (i / of_Z div * delta)%float) <$> y
        else (fun i => (i * step)%float) <$> y
      else (fun i => (i * delta)%float) <$> y in
    let y := (fun v => (v + start)%float) <$> y in
    Ret (if 1 <? num then take (Z.to_nat (num - 1)) y ++ [stop] else y).

(** [np.repeat(a, repeats)]: every element [repeats] times in a row. The
    result is allocated with [repeats * len(a)] elements, and a negative
    size is refused: so is a negative [repeats], unless [a] is empty. *)
Definition repeat {A} (a : list A) (repeats : Z) : outcome (list A) :=
  if repeats * Z.of_nat (length a) <? 0 then Raise ValueError
  else Ret (flat_map (replicate (Z.to_nat repeats)) a).

(** [np.tile(a, reps)]: the whole of [a], [reps] times end to end. It is
    built with [repeat] when [a] has elements, and is [a] reshaped when it
    has none. *)
Definition tile {A} (a : list A) (reps : Z) : outcome (list A) :=
  if reps * Z.of_nat (length a) <? 0 then Raise ValueError
  else Ret (concat (replicate (Z.to_nat reps) a)).

End np.

(** [a[i]] for an index known to be non-negative. *)
Definition getitem {A} (a : list A) (i : nat) : outcome A :=
  match a !! i with
  | Some x => Ret x
  | None => Raise IndexError
  end.

(** [a[:stop]]: a negative [stop] counts from the end. *)
Definition slice_to {A} (stop : Z) (a : list A) : list A :=
  if stop <? 0 then take (Z.to_nat (Z.of_nat (length a) + stop)) a
  else take (Z.to_nat stop) a.

(** The product of integers, exactly: what [prod] gives as long as
    nothing wraps. *)
Definition product (a : list Z) : Z := foldr Z.mul 1 a.

(** ** ScanND: the paths of an N-dimensional scan *)

(** [ScanND.calcLinearPath] *)
Definition calcLinearPath (start stop : float) (npts : Z) : outcome (list float) :=
  np.linspace start stop npts.

(** [ScanND.calculatePath]: the path of dimension [dim]. *)
Definition calculatePath (start stop : float) (npts : list Z) (dim : nat)
  : outcome (list float) :=
  let N := npts in
  n ← getitem npts dim;
  a ← calcLinearPath start stop n;
  let x := slice_to (Z.of_nat (length N) - Z.of_nat dim - 1) (reverse N) in
  let y := slice_to (Z.of_nat dim) N in
  a ← np.repeat a (np.prod x);
  a ← np.tile a (np.prod y);
  mret a.

Section call_paths.
Context {P : Type}.

(** The inner loop of [ScanND.__call__]: every positioner of the group
    of dimension [d] is appended with a path computed for it. *)
Fixpoint call_group (b e : float) (npts : list Z) (d : nat) (iter_pos : list P)
    (acc : list P * list (list float)) : outcome (list P * list (list float)) :=
  match iter_pos with
  | [] => Ret acc
  | p :: rest =>
      path ← calculatePath b e npts d;
      call_group b e npts d rest (acc.1 ++ [p], acc.2 ++ [path])
  end.

(** The outer loop, over [zip(start, stop, range(dimension))]. *)
Fixpoint call_dims (positioners : list (arg P)) (npts : list Z)
    (dims : list (float * float * nat))
    (acc : list P * list (list float)) : outcome (list P * list (list float)) :=
  match dims with
  | [] => Ret acc
  | (b, e, d) :: rest =>
      g ← getitem positioners d;
      acc ← call_group b e npts d (ensure_iterator g) acc;
      call_dims positioners npts rest acc
  end.

(** [ScanND.__call__] up to the assignment of [self.positioners] and
    [self.paths]: the positioners and paths it computes. *)
Definition call_paths (positioners : arg (arg P)) (start stop : arg float)
    (npts : arg Z) : outcome (list P * list (list float)) :=
  let npts := ensure_iterator npts in
  let positioners := ensure_iterator positioners in
  let start := ensure_iterator start in
  let stop := ensure_iterator stop in
  let dimension := length npts in
  let npts := (fun n => np.int64 (n + 1)) <$> npts in
  call_dims positioners npts (zip (zip start stop) (seq 0 dimension)) ([], []).

(** The positioners of the groups the loop visits, in order. *)
Definition groups_of (positioners : list (arg P))
  (dims : list (float * float * nat)) : list P :=
  concat ((fun x => from_option ensure_iterator [] (positioners !! x.2)) <$> dims).

(** The path of dimension [d], or no point at all where [calculatePath]
    raises. *)
Definition path_of (b e : float) (npts : list Z) (d : nat) : list float :=
  match calculatePath b e npts d with
  | Ret path => path
  | _ => []
  end.

(** The paths for the groups the loop visits: for every dimension, one
    copy of its path per positioner of its group. *)
Definition paths_of (positioners : list (arg P)) (npts : list Z)
  (dims : list (float * float * nat)) : list (list float) :=
  concat ((fun x : float * float * nat =>
             replicate
               (length (from_option ensure_iterator [] (positioners !! x.2)))
               (path_of x.1.1 x.1.2 npts x.2)) <$> dims).

End call_paths.

(** ** Values and calls that cross the boundary of the module *)

(** Positioners, detectors and triggers are opaque handles (names of
    objects owned elsewhere); a dataset is an opaque token. *)
Abbreviation Positioner := string (only parsing).
Abbreviation Detector := string (only parsing).
Abbreviation Trigger := string (only parsing).
Abbreviation Dataset := nat (only parsing).

(** The Python values stored in [scan_args] or handed back by a call. *)
Inductive pyval : Type :=
| PyNone
| PyFloat (x : float)
| PyList (l : list string)
| PyData (d : Dataset).

(** The calls [Scan.run] makes, to its own hooks and to its collaborators. *)
Inductive call : Type :=
| CheckPaths
| PreScan
| SetupDetectors
| SetupTriggers
| SetTrajectory (pos : Positioner) (path : list float)
| StartRun (run_id : Z) (scan_args : gmap string pyval)
| PostScan.

Inductive event : Type :=
| Called (c : call)
| Returned (c : call) (v : pyval)
| Raised (c : call) (e : exn).

Definition is_postScan (ev : event) : bool :=
  match ev with Called PostScan => true | _ => false end.

Definition is_preScan (ev : event) : bool :=
  match ev with Called PreScan => true | _ => false end.

(** The call an event is about. *)
Definition call_of (ev : event) : call :=
  match ev with Called c | Returned c _ | Raised c _ => c end.

(** The calls made inside the [with] block of [run]. *)
Definition inner (c : call) : Prop :=
  match c with
  | CheckPaths | PreScan | PostScan => False
  | _ => True
  end.

Definition is_setTrajectory (c : call) : Prop :=
  match c with SetTrajectory _ _ => True | _ => False end.

(** The event that ends a call. *)
Definition ending {A} (c : call) (v : A -> pyval) (o : outcome A) : list event :=
  match o with
  | Ret a => [Returned c (v a)]
  | Raise x => [Raised c x]
  | Diverge => []
  end.

(** How many events of a trace satisfy [f]. *)
Definition count (f : event -> bool) (t : list event) : nat :=
  length (List.filter f t).

(** The run ids handed to the execution engine, in order. *)
Fixpoint run_ids (t : list event) : list Z :=
  match t with
  | [] => []
  | Called (StartRun i _) :: t => i :: run_ids t
  | _ :: t => run_ids t
  end.

(** ** The scan object *)

Record Scan : Type := mkScan {
  _last_data : option Dataset;
  _triggers : option (list Trigger);
  _detectors : option (list Detector);
  _default_detectors : list Detector;
  _default_triggers : list Trigger;
  settle_time : option float;
  _paths : list (list float);
  _positioners : list Positioner;
  _run_id : Z;
  (* set by [DScan.preScan]; [None] while the attribute does not exist *)
  _start_positions : option (list float)
}.

(** [Scan.__init__] *)
Definition Scan_init : Scan :=
  {| _last_data := None; _triggers := None; _detectors := None;
   _default_detectors := []; _default_triggers := [];
   settle_time := None; _paths := []; _positioners := [];
   _run_id := 0; _start_positions := None |}.

(** The properties of [Scan]: getters. *)
Definition run_id (s : Scan) : Z := _run_id s.
Definition data (s : Scan) : option Dataset := _last_data s.
Definition default_detectors (s : Scan) : list Detector := _default_detectors s.
Definition default_triggers (s : Scan) : list Trigger := _default_triggers s.
Definition positioners (s : Scan) : list Positioner := _positioners s.
Definition paths (s : Scan) : list (list float) := _paths s.

Definition triggers (s : Scan) : list Trigger :=
  match _triggers s with
  | None => _default_triggers s
  | Some t => t ++ default_triggers s
  end.

Definition detectors (s : Scan) : list Detector :=
  match _detectors s with
  | None => _default_detectors s
  | Some d => d ++ _default_detectors s
  end.

(** The properties of [Scan]: setters. *)
Definition set_data (d : option Dataset) (s : Scan) : Scan :=
  mkScan d (_triggers s) (_detectors s) (_default_detectors s)
  (_default_triggers s) (settle_time s) (_paths s) (_positioners s)
  (_run_id s) (_start_positions s).

Definition set_triggers (t : option (list Trigger)) (s : Scan) : Scan :=
  mkScan (_last_data s) t (_detectors s) (_default_detectors s)
  (_default_triggers s) (settle_time s) (_paths s) (_positioners s)
  (_run_id s) (_start_positions s).

Definition set_detectors (d : option (list Detector)) (s : Scan) : Scan :=
  mkScan (_last_data s) (_triggers s) d (_default_detectors s)
  (_default_triggers s) (settle_time s) (_paths s) (_positioners s)
  (_run_id s) (_start_positions s).

Definition set_default_detectors (d : list Detector) (s : Scan) : Scan :=
  mkScan (_last_data s) (_triggers s) (_detectors s) d
  (_default_triggers s) (settle_time s) (_paths s) (_positioners s)
  (_run_id s) (_start_positions s).

Definition set_default_triggers (t : list Trigger) (s : Scan) : Scan :=
  mkScan (_last_data s) (_triggers s) (_detectors s) (_default_detectors s)
  t (settle_time s) (_paths s) (_positioners s)
  (_run_id s) (_start_positions s).

Definition set_settle_time (t : option float) (s : Scan) : Scan :=
  mkScan (_last_data s) (_triggers s) (_detectors s) (_default_detectors s)
  (_default_triggers s) t (_paths s) (_positioners s)
  (_run_id s) (_start_positions s).

Definition set_paths (p : list (list float)) (s : Scan) : Scan :=
  mkScan (_last_data s) (_triggers s) (_detectors s) (_default_detectors s)
  (_default_triggers s) (settle_time s) p (_positioners s)
  (_run_id s) (_start_positions s).

Definition set_positioners (p : list Positioner) (s : Scan) : Scan :=
  mkScan (_last_data s) (_triggers s) (_detectors s) (_default_detectors s)
  (_default_triggers s) (settle_time s) (_paths s) p
  (_run_id s) (_start_positions s).

Definition set_start_positions (p : list float) (s : Scan) : Scan :=
  mkScan (_last_data s) (_triggers s) (_detectors s) (_default_detectors s)
  (_default_triggers s) (settle_time s) (_paths s) (_positioners s)
  (_run_id s) (Some p).

(** The dictionary [scan_args] that [run] builds, key by key. *)
Definition scan_args (s : Scan) : gmap string pyval :=
  <["settle_time" := from_option PyFloat PyNone (settle_time s)]>
  (<["positioners" := PyList (positioners s)]>
    (<["triggers" := PyList (triggers s)]>
      (<["detectors" := PyList (detectors s)]> ∅))).

(** ** State and exceptions *)

(** A computation over a state [Σ] that returns, raises or diverges; the
    state reached is kept in every case (an exception does not undo
    assignments). *)
Definition St (Σ A : Type) : Type := Σ -> Σ * outcome A.

#[global] Instance St_ret {Σ} : MRet (St Σ) := fun A a σ => (σ, Ret a).
#[global] Instance St_bind {Σ} : MBind (St Σ) := fun A B k m σ =>
  match m σ with
  | (σ', Ret a) => k a σ'
  | (σ', Raise x) => (σ', Raise x)
  | (σ', Diverge) => (σ', Diverge)
  end.

Definition raise {Σ A} (x : exn) : St Σ A := fun σ => (σ, Raise x).
Definition diverge {Σ A} : St Σ A := fun σ => (σ, Diverge).
Definition modify {Σ} (f : Σ -> Σ) : St Σ unit := fun σ => (f σ, Ret ()).

(** [[f(x) for x in l]], left to right. *)
Fixpoint collect {Σ A B} (f : A -> St Σ B) (l : list A) : St Σ (list B) :=
  match l with
  | [] => mret []
  | a :: l => b ← f a; bs ← collect f l; mret (b :: bs)
  end.

(** [for x in l: f(x)] *)
Fixpoint for_each {Σ A} (f : A -> St Σ unit) (l : list A) : St Σ unit :=
  match l with
  | [] => mret ()
  | a :: l => f a;; for_each f l
  end.

(** ** The collaborators of a scan *)

(** What the module asks of the world outside it: the positioner
    capabilities, the run engine, the log book and the clock. Their code
    is not part of the module; every lifecycle fact below holds for any
    implementation of them. *)
Class Devices (Env : Type) : Type := {
  (* [p.position] *)
  position : Positioner -> St Env float;
  (* [p.moving] *)
  moving : Positioner -> St Env bool;
  (* [p.move(target, wait=wait)] *)
  move : Positioner -> float -> bool -> St Env unit;
  (* [pos.set_trajectory(path)] *)
  set_trajectory : Positioner -> list float -> St Env unit;
  (* [self._run_eng.start_run(run_id, scan_args=scan_args)] *)
  start_run : Z -> gmap string pyval -> St Env Dataset;
  (* [print(msg); SimpleOlogClient().log(msg)] for the positioners named *)
  olog_log : list Positioner -> St Env unit;
  (* [sleep(0.1)] *)
  sleep : St Env unit
}.

Section lifecycle.
Context {Env : Type} `{!Devices Env}.

(** A method of a scan object: it sees the object and the world. *)
Definition method : Type := St (Scan * Env) unit.

(** A device call made from a method. *)
Definition device {A} (m : St Env A) : St (Scan * Env) A := fun σ =>
  let '(e, r) := m σ.2 in ((σ.1, e), r).

Definition self : St (Scan * Env) Scan := fun σ => (σ, Ret σ.1).

Definition assign (f : Scan -> Scan) : St (Scan * Env) unit :=
  modify (fun σ => (f σ.1, σ.2)).

(** The hooks [run] calls on [self]: a class of scans is its table of
    hooks. *)
Record ScanClass : Type := {
  checkPaths : method;
  preScan : method;
  postScan : method;
  setupDetectors : method;
  setupTriggers : method
}.

(** *** What [run] does, with the trace of its calls *)

Record World : Type := mkWorld {
  scan : Scan;
  env : Env;
  trace : list event
}.

(** A call to a hook or a collaborator, recorded with how it ended. *)
Definition traced {A} (c : call) (v : A -> pyval) (m : St (Scan * Env) A)
  : St World A := fun w =>
  let w0 := mkWorld (scan w) (env w) (trace w ++ [Called c]) in
  match m (scan w, env w) with
  | ((s, e), Ret a) =>
    (mkWorld s e (trace w0 ++ [Returned c (v a)]), Ret a)
  | ((s, e), Raise x) => (mkWorld s e (trace w0 ++ [Raised c x]), Raise x)
  | ((s, e), Diverge) => (mkWorld s e (trace w0), Diverge)
  end.

Definition hook (c : call) (m : method) : St World unit :=
  traced c (fun _ => PyNone) m.

(** [with ctx: body], for a context manager given by its [__enter__] and
    [__exit__]: [__exit__] runs when the body returns and when it raises,
    and the exception is raised again unless [__exit__] returned a true
    value. *)
Definition with_ (enter : St World unit) (exit : option exn -> St World bool)
  (body : St World unit) : St World unit :=
  let block : St World unit := fun w =>
  match body w with
  | (w', Ret _) => ((exit None;; mret ()) : St World unit) w'
  | (w', Raise x) =>
      ((suppress ← exit (Some x);
        if suppress : bool then mret () else raise x) : St World unit) w'
  | (w', Diverge) => (w', Diverge)
  end in
  enter;; block.

Section run.
Variable cls : ScanClass.

(** [Scan.__enter__] *)
Definition Scan_enter : St World unit :=
  hook PreScan (preScan cls).

(** [Scan.__exit__] *)
Definition Scan_exit (exc : option exn) : St World bool :=
  hook PostScan (postScan cls);;
  mret false.

Definition observe : St World Scan := fun w => (w, Ret (scan w)).

Definition update (f : Scan -> Scan) : St World unit :=
  modify (fun w => mkWorld (f (scan w)) (env w) (trace w)).

(** [pos.set_trajectory(path)], as [run] calls it. *)
Definition send_trajectory (pp : Positioner * list float) : St World unit :=
  traced (SetTrajectory pp.1 pp.2) (fun _ => PyNone)
  (device (set_trajectory pp.1 pp.2)).

(** The body of the [with self:] block of [Scan.run]. *)
Definition run_body : St World unit :=
  hook SetupDetectors (setupDetectors cls);;
  hook SetupTriggers (setupTriggers cls);;
  s ← observe;
  for_each send_trajectory (zip (positioners s) (paths s));;
  s ← observe;
  let scan_args := scan_args s in
  d ← traced (StartRun (_run_id s + 1) scan_args) PyData
      (device (start_run (_run_id s + 1) scan_args));
  update (set_data (Some d)).

(** [Scan.run] *)
Definition run : St World unit :=
  hook CheckPaths (checkPaths cls);;
  with_ Scan_enter Scan_exit run_body.

(** The hooks that run before the trajectories are handed out, without
    the trace: the scan object they leave is the one the request is
    built from. *)
Definition setup : method :=
  setupDetectors cls;; setupTriggers cls.

Definition configure : method :=
  checkPaths cls;; preScan cls;; setup.

(** [ScanND.__call__] *)
Definition ScanND_call (positioners : arg (arg Positioner))
  (start stop : arg float) (npts : arg Z) : St World unit :=
  match call_paths positioners start stop npts with
  | Ret (pos, paths) =>
    update (set_positioners pos);;
    update (set_paths paths);;
    run
  | Raise x => raise x
  | Diverge => diverge
  end.

(** [n] calls of [run], one after the other, as long as each returns. *)
Fixpoint runs (n : nat) : St World unit :=
  match n with
  | O => mret ()
  | S n => run;; runs n
  end.

(** The trace when the [with] block has been entered. *)
Definition entered : list event :=
  [Called CheckPaths; Returned CheckPaths PyNone;
 Called PreScan; Returned PreScan PyNone].

(** The four ways a call of [run] can go: the validation does not
    return; [preScan] does not return; the block never ends; or the block
    ends, returning or raising, and [postScan] is called. *)
Inductive run_case (w : World) : World * outcome unit -> Prop :=
| run_check_fails s e o :
    checkPaths cls (scan w, env w) = (s, e, o) ->
    o <> Ret () ->
    run_case w
      (mkWorld s e
         (trace w ++ Called CheckPaths :: ending CheckPaths (fun _ => PyNone) o),
       o)
| run_enter_fails s0 e0 s1 e1 o :
    checkPaths cls (scan w, env w) = (s0, e0, Ret ()) ->
    preScan cls (s0, e0) = (s1, e1, o) ->
    o <> Ret () ->
    run_case w
      (mkWorld s1 e1
         (trace w ++ [Called CheckPaths; Returned CheckPaths PyNone]
            ++ Called PreScan :: ending PreScan (fun _ => PyNone) o),
       o)
| run_block_hangs s0 e0 s1 e1 w3 :
    checkPaths cls (scan w, env w) = (s0, e0, Ret ()) ->
    preScan cls (s0, e0) = (s1, e1, Ret ()) ->
    run_body (mkWorld s1 e1 (trace w ++ entered)) = (w3, Diverge) ->
    run_case w (w3, Diverge)
| run_exits s0 e0 s1 e1 w3 rb s4 e4 ox :
    checkPaths cls (scan w, env w) = (s0, e0, Ret ()) ->
    preScan cls (s0, e0) = (s1, e1, Ret ()) ->
    run_body (mkWorld s1 e1 (trace w ++ entered)) = (w3, rb) ->
    rb <> Diverge ->
    postScan cls (scan w3, env w3) = (s4, e4, ox) ->
    run_case w
      (mkWorld s4 e4
         (trace w3 ++ Called PostScan :: ending PostScan (fun _ => PyNone) ox),
       match ox with
       | Ret _ => rb
       | Raise x => Raise x
       | Diverge => Diverge
       end).

End run.

(** The state [run] leaves, started on scan [s] in world [e] with an
    empty trace. *)
Definition exec (cls : ScanClass) (s : Scan) (e : Env) : World * outcome unit :=
  run cls (mkWorld s e []).

(** A method that leaves the captured dataset as it is. *)
Definition keeps_data (m : method) : Prop :=
  forall σ, _last_data (m σ).1.1 = _last_data σ.1.

Definition class_keeps_data (cls : ScanClass) : Prop :=
  keeps_data (checkPaths cls) /\ keeps_data (preScan cls) /\
  keeps_data (postScan cls) /\ keeps_data (setupDetectors cls) /\
  keeps_data (setupTriggers cls).

(** *** The classes of the module *)

(** A hook whose body is [pass]. *)
Definition pass : method := mret ().

(** [Scan] (and [ScanND], which overrides no hook) *)
Definition Scan_class : ScanClass :=
  {| checkPaths := pass; preScan := pass; postScan := pass;
   setupDetectors := pass; setupTriggers := pass |}.

(** [AScan.preScan]: the inherited hook, then the message to the log. *)
Definition AScan_preScan : method :=
  pass;;
  s ← self;
  device (olog_log (positioners s)).

Definition AScan_class : ScanClass :=
  {| checkPaths := pass; preScan := AScan_preScan; postScan := pass;
   setupDetectors := pass; setupTriggers := pass |}.

(** [DScan.preScan] *)
Definition DScan_preScan : method :=
  s ← self;
  starts ← device (collect position (positioners s));
  assign (set_start_positions starts);;
  s ← self;
  assign (set_paths
  (zip_with (fun path start => (fun r => (r + start)%float) <$> path)
     (paths s) starts));;
  AScan_preScan.

(** The loop [while any([p.moving for p in ps]): sleep(0.1)], cut after
    [fuel] evaluations of its condition. *)
Fixpoint poll (fuel : nat) (ps : list Positioner) : St Env unit :=
  match fuel with
  | O => diverge
  | S fuel =>
    flags ← collect moving ps;
    if existsb id flags then sleep;; poll fuel ps else mret ()
  end.

(** [DScan.postScan] *)
Definition DScan_postScan (fuel : nat) : method :=
  pass;;
  s ← self;
  match _start_positions s with
  | None => raise AttributeError
  | Some starts =>
    device (for_each (fun ps => move ps.1 ps.2 true)
              (zip (positioners s) starts));;
    s ← self;
    device (poll fuel (positioners s))
  end.

Definition DScan_class (fuel : nat) : ScanClass :=
  {| checkPaths := pass; preScan := DScan_preScan;
   postScan := DScan_postScan fuel;
   setupDetectors := pass; setupTriggers := pass |}.

End lifecycle.

(** ** An ideal laboratory *)

(** Modelled from the spec: the positioner capability boundary
    ([position], [moving], [move(target, wait)], [set_trajectory]) and the
    execution engine boundary ([start_run(run_id, scan_args) -> dataset]);
    the device layer and the run engine are not among the module's files.
    A motor asked to move and to block is at its target, at rest, when the
    call returns; one asked to move without blocking arrives during the
    next [sleep]. The engine drives every positioner of the request to the
    end of its trajectory and answers with the next reply of its script. *)
Record motor : Type := mkMotor {
  m_position : float;
  m_moving : bool;
  m_target : float;
  m_trajectory : list float
}.

#[global] Instance motor_inhabited : Inhabited motor :=
  populate (mkMotor 0%float false 0%float []).

(** Modelled from the spec: the laboratory the positioners, the engine
    and the log book live in (the device layer and the run engine are not
    among the module's files). *)
Record lab : Type := mkLab {
  motors : gmap string motor;
  replies : list (outcome Dataset);
  logbook : list (list string);
  (* the moves asked of the motors: who, where to, blocking or not *)
  journal : list (Positioner * float * bool)
}.

Definition motor_of (l : lab) (p : Positioner) : motor := motors l !!! p.

Definition with_motor (p : Positioner) (f : motor -> motor) (l : lab) : lab :=
  mkLab (<[p := f (motor_of l p)]> (motors l)) (replies l) (logbook l)
  (journal l).

Definition lab_move_motor (target : float) (wait : bool) (m : motor) : motor :=
  mkMotor (if wait then target else m_position m) (negb wait) target
  (m_trajectory m).

Definition lab_move (p : Positioner) (target : float) (wait : bool)
  : St lab unit :=
  modify (fun l =>
  let l := with_motor p (lab_move_motor target wait) l in
  mkLab (motors l) (replies l) (logbook l) (journal l ++ [(p, target, wait)])).

Definition arrive (m : motor) : motor :=
  mkMotor (if m_moving m then m_target m else m_position m) false
  (m_target m) (m_trajectory m).

Definition follow (m : motor) : motor :=
  mkMotor (List.last (m_trajectory m) (m_position m)) false (m_target m)
  (m_trajectory m).

(** Modelled from the spec: [start_run(run_id, scan_args) -> dataset] of
    the execution engine, which is not among the module's files. *)
Definition lab_start_run (run_id : Z) (scan_args : gmap string pyval)
  : St lab Dataset := fun l =>
  let ps := match scan_args !! "positioners" with
          | Some (PyList ps) => ps
          | _ => []
          end in
  let l := foldl (fun l p => with_motor p follow l) l ps in
  match replies l with
  | [] => (l, Ret 0%nat)
  | r :: rs => (mkLab (motors l) rs (logbook l) (journal l), r)
  end.

(** Modelled from the spec: the capabilities of section 6 (positioner,
    execution engine and notification boundaries), the code of which is
    not among the module's files, on the ideal laboratory. *)
#[global] Instance lab_devices : Devices lab := {|
  position p := fun l => (l, Ret (m_position (motor_of l p)));
  moving p := fun l => (l, Ret (m_moving (motor_of l p)));
  move := lab_move;
  set_trajectory p path := modify (with_motor p (fun m =>
    mkMotor (m_position m) (m_moving m) (m_target m) path));
  start_run := lab_start_run;
  olog_log ps := modify (fun l =>
    mkLab (motors l) (replies l) (logbook l ++ [ps]) (journal l));
  sleep := modify (fun l =>
    mkLab (arrive <$> motors l) (replies l) (logbook l) (journal l))
  |}.

(** A laboratory with one motor, at position [p0]. *)
Definition bench (name : Positioner) (p0 : float)
  (script : list (outcome Dataset)) : lab :=
  mkLab {[ name := mkMotor p0 false p0 [] ]} script [] [].

(** A scan of the motor ["m"] over three relative points. *)
Definition one_motor_scan : Scan :=
  set_paths [[0; 1; 2]%float] (set_positioners ["m"] Scan_init).

(** The laboratory with ["m"] at 5: one where the engine answers with
    dataset 7, one where it fails. *)
Definition engine_up : lab := bench "m" 5%float [Ret 7%nat].
Definition engine_down : lab := bench "m" 5%float [Raise (Failure "engine")].

(** A class of scans whose [preScan] cannot read a position, and one
    whose validation refuses the paths. *)
Definition Unreadable_class : ScanClass :=
  {| checkPaths := pass; preScan := raise (Failure "position");
   postScan := DScan_postScan 1;
   setupDetectors := pass; setupTriggers := pass |}.

Definition Invalid_class : ScanClass :=
  {| checkPaths := raise ValueError; preScan := DScan_preScan;
   postScan := DScan_postScan 1;
   setupDetectors := pass; setupTriggers := pass |}.

(** ** The calls of a run, one by one *)

(** The events of the trajectories handed out, one after the other, to
    the pairs [l] of a positioner and its path. *)
Definition handed (l : list (Positioner * list float)) : list event :=
  flat_map (fun pp => [Called (SetTrajectory pp.1 pp.2);
                       Returned (SetTrajectory pp.1 pp.2) PyNone]) l.

(** The trajectories handed to positioners, in the order of the calls. *)
Fixpoint trajectories (t : list event) : list (Positioner * list float) :=
  match t with
  | [] => []
  | Called (SetTrajectory p path) :: t => (p, path) :: trajectories t
  | _ :: t => trajectories t
  end.

(** The trace of the two setup hooks when both have returned. *)
Definition set_up : list event :=
  [Called SetupDetectors; Returned SetupDetectors PyNone;
   Called SetupTriggers; Returned SetupTriggers PyNone].

(** A method that leaves the scan object as it is. *)
Definition keeps_scan {Env} (m : St (Scan * Env) unit) : Prop :=
  forall σ, (m σ).1.1 = σ.1.

Definition class_keeps_scan {Env} (cls : @ScanClass Env) : Prop :=
  keeps_scan (checkPaths cls) /\ keeps_scan (preScan cls) /\
  keeps_scan (postScan cls) /\ keeps_scan (setupDetectors cls) /\
  keeps_scan (setupTriggers cls).

(** The paths [DScan.preScan] stores:
    [[np.array(path) + start for path, start in zip(paths, starts)]]. *)
Definition shifted (paths : list (list float)) (starts : list float)
  : list (list float) :=
  zip_with (fun path start => (fun r => (r + start)%float) <$> path) paths starts.

Section body.
Context {Env : Type} `{!Devices Env}.
Variable cls : @ScanClass Env.

(** The ways the block of [run] can go: a setup hook does not return; a
    positioner does not take its trajectory; or every positioner has its
    trajectory and the engine is started. *)
Inductive body_case (w : World) : World * outcome unit -> Prop :=
| body_detectors_fail s e o :
    setupDetectors cls (scan w, env w) = (s, e, o) ->
    o <> Ret () ->
    body_case w
      (mkWorld s e
         (trace w ++ Called SetupDetectors
            :: ending SetupDetectors (fun _ => PyNone) o),
       o)
| body_triggers_fail s1 e1 s e o :
    setupDetectors cls (scan w, env w) = (s1, e1, Ret ()) ->
    setupTriggers cls (s1, e1) = (s, e, o) ->
    o <> Ret () ->
    body_case w
      (mkWorld s e
         (trace w ++ [Called SetupDetectors; Returned SetupDetectors PyNone]
            ++ Called SetupTriggers
            :: ending SetupTriggers (fun _ => PyNone) o),
       o)
| body_trajectory_fails s1 e1 s2 e2 k pp e3 o :
    setupDetectors cls (scan w, env w) = (s1, e1, Ret ()) ->
    setupTriggers cls (s1, e1) = (s2, e2, Ret ()) ->
    zip (positioners s2) (paths s2) !! k = Some pp ->
    for_each (fun pp => set_trajectory pp.1 pp.2)
      (zip (positioners s2) (paths s2)) e2 = (e3, o) ->
    o <> Ret () ->
    body_case w
      (mkWorld s2 e3
         (trace w ++ set_up
            ++ handed (take k (zip (positioners s2) (paths s2)))
            ++ Called (SetTrajectory pp.1 pp.2)
            :: ending (SetTrajectory pp.1 pp.2) (fun _ => PyNone) o),
       o)
| body_engine s1 e1 s2 e2 e3 e4 o :
    setupDetectors cls (scan w, env w) = (s1, e1, Ret ()) ->
    setupTriggers cls (s1, e1) = (s2, e2, Ret ()) ->
    for_each (fun pp => set_trajectory pp.1 pp.2)
      (zip (positioners s2) (paths s2)) e2 = (e3, Ret ()) ->
    start_run (_run_id s2 + 1) (scan_args s2) e3 = (e4, o) ->
    body_case w
      (mkWorld (match o with Ret d => set_data (Some d) s2 | _ => s2 end) e4
         (trace w ++ set_up
            ++ handed (zip (positioners s2) (paths s2))
            ++ Called (StartRun (_run_id s2 + 1) (scan_args s2))
            :: ending (StartRun (_run_id s2 + 1) (scan_args s2)) PyData o),
       match o with
       | Ret _ => Ret ()
       | Raise x => Raise x
       | Diverge => Diverge
       end).

End body.

(** ** A laboratory out of order *)

(** A test double for the failure cases: the log book cannot be reached,
    the motor ["stuck"] refuses to move and the position of ["blind"]
    cannot be read; every other call answers as in the ideal
    laboratory. *)
Record broken_lab : Type := Broken { intact : lab }.

Definition as_broken {A} (m : St lab A) : St broken_lab A := fun b =>
  let '(l, r) := m (intact b) in (Broken l, r).

#[global] Instance broken_devices : Devices broken_lab := {|
  position p :=
    if decide (p = "blind") then raise (Failure "position")
    else as_broken (position p);
  moving p := as_broken (moving p);
  move p target wait :=
    if decide (p = "stuck") then raise (Failure "move")
    else as_broken (move p target wait);
  set_trajectory p path := as_broken (set_trajectory p path);
  start_run run_id scan_args := as_broken (start_run run_id scan_args);
  olog_log ps := raise (Failure "olog");
  sleep := as_broken sleep
  |}.

(** The bench with its log book out of reach. *)
Definition broken_bench : broken_lab := Broken engine_up.

(** A second test double: a laboratory whose motors are jammed, every
    [move] raising; every other call answers as in the ideal
    laboratory. *)
Record jammed_lab : Type := Jammed { unjammed : lab }.

Definition as_jammed {A} (m : St lab A) : St jammed_lab A := fun j =>
  let '(l, r) := m (unjammed j) in (Jammed l, r).

#[global] Instance jammed_devices : Devices jammed_lab := {|
  position p := as_jammed (position p);
  moving p := as_jammed (moving p);
  move p target wait := raise (Failure "move");
  set_trajectory p path := as_jammed (set_trajectory p path);
  start_run run_id scan_args := as_jammed (start_run run_id scan_args);
  olog_log ps := as_jammed (olog_log ps);
  sleep := as_jammed sleep
  |}.

(** The bench with the motor jammed and an engine that fails. *)
Definition jammed_bench : jammed_lab := Jammed engine_down.

(** A scan of three motors, the second of them stuck, after its
    [preScan] has captured the positions 1, 2 and 3. *)
Definition three_motor_scan : Scan :=
  set_start_positions [1; 2; 3]%float
  (set_positioners ["m"; "stuck"; "n"] Scan_init).

(** A scan of two motors, the position of the second unreadable. *)
Definition blind_motor_scan : Scan :=
  set_paths [[0; 1]%float; [0; 1]%float]
  (set_positioners ["m"; "blind"] Scan_init).

(** ** Proof steps *)

(** Membership in a trace written out as a list. *)
Ltac trace_in :=
  repeat match goal with
  | H : _ ∈ [] |- _ => apply elem_of_nil in H; destruct H
  | H : _ ∈ _ :: _ |- _ => apply elem_of_cons in H; destruct H as [H|H]
  | H : _ ∈ _ ++ _ |- _ => apply elem_of_app in H; destruct H as [H|H]
  | H : @eq event _ _ |- _ => first [discriminate H | injection H as; subst]
  | H : @eq call _ _ |- _ => first [discriminate H | injection H as; subst]
  end.

Ltac trace_mem :=
  repeat (rewrite elem_of_app || rewrite elem_of_cons); tauto.

(** * Facts *)

(** ** Lists: repeating and tiling *)

Local Open Scope nat_scope.

Lemma length_repeat_each {A} (k : nat) (a : list A) :
  length (flat_map (replicate k) a) = length a * k.
Proof.
  induction a as [|x a IH]; simpl; [done|].
  rewrite length_app, length_replicate, IH. lia.
Qed.

Lemma length_tile {A} (r : nat) (a : list A) :
  length (concat (replicate r a)) = r * length a.
Proof.
  induction r as [|r IH]; simpl; [done|].
  rewrite length_app, IH. lia.
Qed.

Lemma lookup_repeat_each {A} (k : nat) (a : list A) (i : nat) :
  0 < k -> flat_map (replicate k) a !! i = a !! (i / k).
Proof.
  intros Hk. revert i. induction a as [|x a IH]; intros i; simpl.
  - by rewrite !lookup_nil.
  - destruct (decide (i < k)) as [Hlt|Hge].
    + rewrite lookup_app_l by (by rewrite length_replicate).
      rewrite Nat.div_small by done. simpl.
      by apply lookup_replicate_2.
    + rewrite lookup_app_r by (rewrite length_replicate; lia).
      rewrite length_replicate, IH.
      replace i with ((i - k) + 1 * k) at 2 by lia.
      rewrite Nat.div_add by lia.
      by replace ((i - k) / k + 1) with (S ((i - k) / k)) by lia.
Qed.

Lemma lookup_tile {A} (r : nat) (a : list A) (i : nat) :
  i < r * length a -> concat (replicate r a) !! i = a !! (i mod length a).
Proof.
  revert i. induction r as [|r IH]; intros i Hi; simpl in *; [lia|].
  destruct (decide (i < length a)) as [Hlt|Hge].
  - rewrite lookup_app_l by done. by rewrite Nat.mod_small.
  - rewrite lookup_app_r by lia. rewrite IH by lia.
    replace i with ((i - length a) + 1 * length a) at 2 by lia.
    by rewrite Nat.Div0.mod_add.
Qed.

(** The digit of [i] in a mixed-radix system: [inner] faster positions
    below it, [n] values at its own position. *)
Lemma digit_of_index (i inner n : nat) :
  0 < inner -> (i mod (n * inner)) / inner = (i / inner) mod n.
Proof.
  intros Hin. rewrite (Nat.mul_comm n inner), Nat.Div0.mod_mul_r.
  rewrite (Nat.mul_comm inner), Nat.div_add by lia.
  rewrite (Nat.div_small (i mod inner)); [done|].
  apply Nat.mod_upper_bound. lia.
Qed.

Lemma lookup_grid {A} (outer inner : nat) (lin : list A) (i : nat) :
  0 < inner -> i < outer * (length lin * inner) ->
  concat (replicate outer (flat_map (replicate inner) lin)) !! i
  = lin !! ((i / inner) mod length lin).
Proof.
  intros Hin Hi.
  rewrite lookup_tile by (by rewrite length_repeat_each).
  rewrite length_repeat_each, lookup_repeat_each by done.
  by rewrite digit_of_index.
Qed.

(** ** The numpy functions *)

Local Open Scope Z_scope.

Lemma prod_app (a b : list Z) : product (a ++ b) = product a * product b.
Proof.
  unfold product. induction a as [|x a IH]; simpl; [lia|].
  rewrite IH. lia.
Qed.

Lemma prod_reverse (a : list Z) : product (reverse a) = product a.
Proof.
  induction a as [|x a IH]; [done|].
  rewrite reverse_cons, prod_app, IH. unfold product. simpl. lia.
Qed.

Lemma prod_pos (a : list Z) : Forall (fun k => 0 < k) a -> 0 < product a.
Proof.
  unfold product. induction 1 as [|x a Hx _ IH]; simpl; lia.
Qed.

Lemma prod_split (N : list Z) (d : nat) (n : Z) :
  N !! d = Some n ->
  product N = product (take d N) * (n * product (drop (S d) N)).
Proof.
  intros Hd. rewrite <- (take_drop_middle N d n Hd) at 1.
  rewrite prod_app. unfold product at 2. by simpl.
Qed.

(** *** 64-bit integers *)

Lemma int64_range (z : Z) : - 2 ^ 63 <= np.int64 z < 2 ^ 63.
Proof.
  unfold np.int64. pose proof (Z.mod_pos_bound (z + 2 ^ 63) (2 ^ 64)). lia.
Qed.

Lemma int64_exact (z : Z) : - 2 ^ 63 <= z < 2 ^ 63 -> np.int64 z = z.
Proof. intros Hz. unfold np.int64. rewrite Z.mod_small; lia. Qed.

Lemma int64_mul_l (a b : Z) : np.int64 (np.int64 a * b) = np.int64 (a * b).
Proof.
  unfold np.int64. f_equal.
  rewrite (Z.mod_eq (a + 2 ^ 63) (2 ^ 64)) by lia.
  replace ((a + 2 ^ 63 - 2 ^ 64 * ((a + 2 ^ 63) / 2 ^ 64) - 2 ^ 63) * b + 2 ^ 63)
    with (a * b + 2 ^ 63 + (- ((a + 2 ^ 63) / 2 ^ 64) * b) * 2 ^ 64) by lia.
  apply Z_mod_plus_full.
Qed.

(** Whatever wraps on the way, [a.prod()] is the product modulo 2^64. *)
Lemma prod_int64 (a : list Z) : np.prod a = np.int64 (product a).
Proof.
  unfold np.prod.
  assert (forall acc, np.int64 acc = acc ->
            foldl (fun acc x => np.int64 (acc * x)) acc a
            = np.int64 (acc * product a)) as Hgen.
  { induction a as [|x a IH]; intros acc Hacc; simpl.
    - by rewrite Z.mul_1_r, Hacc.
    - rewrite IH by (apply int64_exact, int64_range).
      by rewrite int64_mul_l, Z.mul_assoc. }
  rewrite Hgen by done. by rewrite Z.mul_1_l.
Qed.

Lemma prod_exact (a : list Z) :
  - 2 ^ 63 <= product a < 2 ^ 63 -> np.prod a = product a.
Proof. intros Ha. by rewrite prod_int64, int64_exact. Qed.

Lemma prod_nonneg (a : list Z) : Forall (fun k => 0 <= k) a -> 0 <= product a.
Proof.
  unfold product. induction 1 as [|x a Hx _ IH]; simpl; lia.
Qed.

(** The product of the counts that are not zero: it bounds the product
    of the counts of any block of dimensions. *)
Lemma prod_max_pos (a : list Z) : 0 < product (Z.max 1 <$> a).
Proof.
  apply prod_pos. apply Forall_fmap, Forall_forall. simpl. intros; lia.
Qed.

Lemma prod_max_le (a : list Z) :
  Forall (fun k => 0 <= k) a -> product a <= product (Z.max 1 <$> a).
Proof.
  induction 1 as [|x a Hx Ha IH]; [done|].
  change (x * product a <= Z.max 1 x * product (Z.max 1 <$> a)).
  pose proof (prod_nonneg a Ha). apply Z.mul_le_mono_nonneg; lia.
Qed.

Lemma prod_block (a : list Z) (d : nat) :
  Forall (fun k => 0 <= k) a ->
  0 <= product (take d a) <= product (Z.max 1 <$> a) /\
  0 <= product (drop d a) <= product (Z.max 1 <$> a).
Proof.
  intros Ha.
  pose proof (prod_nonneg _ (Forall_take _ d _ Ha)).
  pose proof (prod_nonneg _ (Forall_drop _ d _ Ha)).
  pose proof (prod_max_le _ (Forall_take _ d _ Ha)).
  pose proof (prod_max_le _ (Forall_drop _ d _ Ha)).
  pose proof (prod_max_pos (take d a)). pose proof (prod_max_pos (drop d a)).
  assert (product (Z.max 1 <$> a)
          = product (Z.max 1 <$> take d a) * product (Z.max 1 <$> drop d a))
    as ->.
  { by rewrite <- prod_app, <- fmap_app, take_drop. }
  nia.
Qed.

Lemma max_pos (a : list Z) : Forall (fun k => 0 < k) a -> Z.max 1 <$> a = a.
Proof.
  induction 1 as [|x a Hx _ IH]; [done|]. rewrite fmap_cons, IH. f_equal. lia.
Qed.

Lemma elem_le_prod_max (a : list Z) (x : Z) :
  x ∈ a -> Z.max 1 x <= product (Z.max 1 <$> a).
Proof.
  induction a as [|y a IH]; [by intros ?%elem_of_nil|].
  rewrite fmap_cons. change (product (?h :: ?t)) with (h * product t).
  pose proof (prod_max_pos a) as Hp.
  set (p := product (Z.max 1 <$> a)) in *.
  assert (1 <= Z.max 1 y) as Hm by lia.
  set (m := Z.max 1 y) in *.
  intros [->|Hin]%elem_of_cons.
  - fold m. clearbody m p. nia.
  - specialize (IH Hin). set (k := Z.max 1 x) in *. clearbody m p k. nia.
Qed.

(** [np.asarray(npts) + 1] for counts whose grid fits in 64 bits: nothing
    wraps. *)
Lemma increment_exact (counts : list Z) :
  Forall (fun c => -1 <= c) counts ->
  product (Z.max 1 <$> ((fun c => c + 1) <$> counts)) < 2 ^ 63 ->
  (fun n => np.int64 (n + 1)) <$> counts = (fun c => c + 1) <$> counts.
Proof.
  intros Hcounts Hfit. apply list_fmap_ext. intros i c Hc.
  apply int64_exact.
  assert (c + 1 ∈ (fun c => c + 1) <$> counts) as Hin.
  { apply list_elem_of_fmap. exists c. split; [done|].
    by eapply list_elem_of_lookup_2. }
  pose proof (elem_le_prod_max _ _ Hin).
  rewrite Forall_forall in Hcounts.
  specialize (Hcounts c (list_elem_of_lookup_2 _ _ _ Hc)).
  set (p := product _) in *. clearbody p.
  assert (0 < 2 ^ 63) by done. lia.
Qed.

Lemma slice_to_nat {A} (d : nat) (a : list A) :
  slice_to (Z.of_nat d) a = take d a.
Proof.
  unfold slice_to. destruct (Z.ltb_spec (Z.of_nat d) 0); [lia|].
  by rewrite Nat2Z.id.
Qed.

(** [N[::-1][:len(N)-dim-1]] holds the counts of the dimensions after
    [dim], last first. *)
Lemma slice_faster {A} (N : list A) (d : nat) :
  (d < length N)%nat ->
  slice_to (Z.of_nat (length N) - Z.of_nat d - 1) (reverse N)
  = reverse (drop (S d) N).
Proof.
  intros Hd.
  replace (Z.of_nat (length N) - Z.of_nat d - 1)
    with (Z.of_nat (length N - d - 1)) by lia.
  rewrite slice_to_nat, take_reverse. do 2 f_equal. lia.
Qed.

Lemma linspace_length (start stop : float) (num : Z) :
  0 <= num ->
  exists lin, np.linspace start stop num = Ret lin /\
              length lin = Z.to_nat num.
Proof.
  intros Hn. unfold np.linspace.
  destruct (Z.ltb_spec num 0); [lia|]. cbv zeta.
  destruct (0 <? num - 1); [destruct (_ =? _)%float|];
    destruct (Z.ltb_spec 1 num); eexists; (split; [reflexivity|]);
    rewrite ?length_app, ?length_take, !length_fmap, length_seqZ; simpl; lia.
Qed.

(** With two samples or more, the last one is [stop] itself. *)
Lemma linspace_last (start stop : float) (num : Z) :
  2 <= num ->
  exists lin, np.linspace start stop num = Ret (lin ++ [stop]).
Proof.
  intros Hn. unfold np.linspace.
  destruct (Z.ltb_spec num 0); [lia|]. cbv zeta.
  destruct (Z.ltb_spec 1 num); [|lia]. by eexists.
Qed.

(** ** [calculatePath] *)

(** The path of dimension [dim], as long as no product of counts wraps:
    the linear path, each point repeated once per combination of the
    faster dimensions, the whole tiled once per combination of the slower
    ones. *)
Lemma calculatePath_blocks (start stop : float) (npts : list Z) (dim : nat)
    (n : Z) (lin : list float) :
  Forall (fun k => 0 <= k) npts ->
  product (Z.max 1 <$> npts) < 2 ^ 63 ->
  npts !! dim = Some n ->
  calcLinearPath start stop n = Ret lin ->
  calculatePath start stop npts dim
  = Ret (concat (replicate (Z.to_nat (product (take dim npts)))
           (flat_map (replicate (Z.to_nat (product (drop (S dim) npts))))
              lin))).
Proof.
  intros Hpos Hfit Hd Hlin. unfold calculatePath, getitem.
  rewrite Hd. simpl. rewrite Hlin. simpl.
  rewrite slice_faster by (by eapply lookup_lt_Some).
  rewrite slice_to_nat.
  destruct (prod_block npts dim Hpos) as [Htake _].
  destruct (prod_block npts (S dim) Hpos) as [_ Hdrop].
  rewrite !prod_exact by (rewrite ?prod_reverse; lia).
  rewrite prod_reverse.
  unfold np.repeat, np.tile.
  destruct (Z.ltb_spec (product (drop (S dim) npts) * Z.of_nat (length lin)) 0);
    [nia|]. simpl.
  match goal with |- context [Z.ltb ?a 0] =>
    destruct (Z.ltb_spec a 0); [nia|]
  end.
  done.
Qed.

Lemma calculatePath_grid (start stop : float) (npts : list Z) (dim : nat)
    (n : Z) (lin : list float) :
  Forall (fun k => 0 < k) npts ->
  product npts < 2 ^ 63 ->
  npts !! dim = Some n ->
  calcLinearPath start stop n = Ret lin ->
  calculatePath start stop npts dim
  = Ret (concat (replicate (Z.to_nat (product (take dim npts)))
           (flat_map (replicate (Z.to_nat (product (drop (S dim) npts))))
              lin))).
Proof.
  intros Hpos Hfit. apply calculatePath_blocks.
  - eapply Forall_impl; [exact Hpos|]. simpl. intros; lia.
  - by rewrite max_pos.
Qed.

Lemma calculatePath_length (start stop : float) (npts : list Z) (dim : nat) :
  Forall (fun k => 0 < k) npts ->
  product npts < 2 ^ 63 ->
  (dim < length npts)%nat ->
  exists path, calculatePath start stop npts dim = Ret path /\
               length path = Z.to_nat (product npts).
Proof.
  intros Hpos Hfit Hd.
  destruct (lookup_lt_is_Some_2 npts dim Hd) as [n Hn].
  assert (0 < n) as Hnpos.
  { rewrite Forall_forall in Hpos. apply Hpos. by eapply list_elem_of_lookup_2. }
  destruct (linspace_length start stop n) as (lin & Hlin & Hlen); [lia|].
  eexists. split; [by eapply calculatePath_grid|].
  rewrite length_tile, length_repeat_each, Hlen, (prod_split npts dim n Hn).
  pose proof (prod_pos (drop (S dim) npts) (Forall_drop _ _ _ Hpos)).
  pose proof (prod_pos (take dim npts) (Forall_take _ _ _ Hpos)).
  rewrite !Z2Nat.inj_mul by lia. done.
Qed.

(** ** The loops of [ScanND.__call__] *)

Section call_paths_facts.
Context {P : Type}.
Implicit Types (acc r : list P * list (list float)).

Lemma call_group_ret (b e : float) (npts : list Z) (d : nat) (path : list float)
    (ps : list P) acc :
  calculatePath b e npts d = Ret path ->
  call_group b e npts d ps acc
  = Ret (acc.1 ++ ps, acc.2 ++ replicate (length ps) path).
Proof.
  intros Hpath. revert acc. induction ps as [|p ps IH]; intros [pos paths]; simpl.
  - by rewrite !app_nil_r.
  - rewrite Hpath. simpl. rewrite IH. simpl.
    by rewrite <- !app_assoc.
Qed.

Lemma call_dims_ret (positioners : list (arg P)) (npts : list Z)
    (dims : list (float * float * nat)) acc r :
  Forall (fun k => 0 < k) npts ->
  product npts < 2 ^ 63 ->
  Forall (fun x => (x.2 < length npts)%nat) dims ->
  call_dims positioners npts dims acc = Ret r ->
  r.1 = acc.1 ++ groups_of positioners dims /\
  exists new, r.2 = acc.2 ++ new /\
    length new = length (groups_of positioners dims) /\
    Forall (fun path => length path = Z.to_nat (product npts)) new.
Proof.
  intros Hpos Hfit Hdims. revert acc.
  induction Hdims as [|[[b e] d] dims Hd _ IH]; intros acc; simpl.
  - intros [= <-]. rewrite app_nil_r. split; [done|].
    exists []. by rewrite app_nil_r.
  - unfold getitem. destruct (positioners !! d) as [g|] eqn:Hg; [|done]. simpl.
    destruct (calculatePath_length b e npts d Hpos Hfit Hd)
      as (path & Hpath & Hlen).
    rewrite (call_group_ret _ _ _ _ path _ _ Hpath). simpl.
    intros Hr. destruct (IH _ Hr) as (H1 & new & H2 & H3 & H4). simpl in *.
    unfold groups_of in *. simpl. rewrite Hg. simpl. split.
    + by rewrite H1, <- app_assoc.
    + exists (replicate (length (ensure_iterator g)) path ++ new).
      rewrite H2, <- app_assoc. split; [done|]. split.
      * rewrite !length_app, length_replicate. by f_equal.
      * apply Forall_app. split; [|done]. by apply Forall_replicate.
Qed.

Lemma call_dims_total (positioners : list (arg P)) (npts : list Z)
    (dims : list (float * float * nat)) acc :
  Forall (fun k => 0 < k) npts ->
  product npts < 2 ^ 63 ->
  Forall (fun x => (x.2 < length npts)%nat) dims ->
  Forall (fun x => (x.2 < length positioners)%nat) dims ->
  exists r, call_dims positioners npts dims acc = Ret r.
Proof.
  intros Hpos Hfit Hdims Hps. revert acc.
  induction dims as [|[[b e] d] dims IH]; intros acc; simpl; [by eexists|].
  apply Forall_cons in Hdims as [Hd Hdims]. apply Forall_cons in Hps as [Hp Hps].
  simpl in *. unfold getitem.
  destruct (lookup_lt_is_Some_2 positioners d Hp) as [g ->]. simpl.
  destruct (calculatePath_length b e npts d Hpos Hfit Hd) as (path & Hpath & _).
  rewrite (call_group_ret _ _ _ _ path _ _ Hpath). simpl. by apply IH.
Qed.

Lemma zip_range_bound {A} (l : list A) (n : nat) :
  Forall (fun x => (x.2 < n)%nat) (zip l (seq 0 n)).
Proof.
  apply Forall_forall. intros [a d] Hin.
  apply elem_of_zip_r in Hin. simpl. apply elem_of_seq in Hin. lia.
Qed.

(** With a group for every dimension, the positioners emitted are the
    groups of the first [length dims] dimensions, one after the other. *)
Lemma groups_of_range {A} (positioners : list (arg P)) (l : list A) (n : nat) :
  length l = n -> (n <= length positioners)%nat ->
  concat ((fun x => from_option ensure_iterator [] (positioners !! x.2))
            <$> zip l (seq 0 n))
  = concat (ensure_iterator <$> take n positioners).
Proof.
  intros Hl Hn. f_equal.
  apply list_eq. intros i. rewrite !list_lookup_fmap.
  rewrite lookup_take. destruct (decide (i < n)%nat) as [Hi|Hi].
  - destruct (lookup_lt_is_Some_2 l i) as [a Ha]; [lia|].
    assert (zip l (seq 0 n) !! i = Some (a, i)) as ->.
    { apply lookup_zip_with_Some. exists a, i.
      split_and!; [done|done|by apply lookup_seq_lt]. }
    destruct (lookup_lt_is_Some_2 positioners i) as [g Hg]; [lia|].
    simpl. by rewrite Hg.
  - rewrite (lookup_ge_None_2 (zip l (seq 0 n))); [done|].
    rewrite length_zip, length_seq. lia.
Qed.

End call_paths_facts.

(** ** Trajectories *)

(** C2, as amended. For equal-length starts, stops and sample counts,
    every count at least 1, and a grid whose number of points, the
    product over the dimensions of (sample count + 1), fits in a 64-bit
    signed integer: every path [ScanND.__call__] computes has that many
    points, and there is one path per positioner emitted; with a group
    of positioners for every dimension the call does compute them, for
    the positioners of the groups in order. *)
Theorem C2_path_lengths {P : Type} (positioners : arg (arg P))
    (start stop : arg float) (npts : arg Z) :
  length (ensure_iterator start) = length (ensure_iterator npts) ->
  length (ensure_iterator stop) = length (ensure_iterator npts) ->
  Forall (fun c => 1 <= c) (ensure_iterator npts) ->
  product ((fun c => c + 1) <$> ensure_iterator npts) < 2 ^ 63 ->
  (forall pos paths,
     call_paths positioners start stop npts = Ret (pos, paths) ->
     Forall (fun path => length path
               = Z.to_nat (product ((fun c => c + 1) <$> ensure_iterator npts)))
       paths /\
     length paths = length pos) /\
  ((length (ensure_iterator npts) <= length (ensure_iterator positioners))%nat ->
   exists pos paths,
     call_paths positioners start stop npts = Ret (pos, paths) /\
     pos = concat (ensure_iterator <$>
             take (length (ensure_iterator npts)) (ensure_iterator positioners))).
Proof.
  intros Hstart Hstop Hcounts Hfit. unfold call_paths.
  set (counts := ensure_iterator npts) in *.
  set (N := (fun c => c + 1) <$> counts) in *.
  assert (Forall (fun k => 0 < k) N) as Hpos.
  { subst N. apply Forall_fmap. eapply Forall_impl; [exact Hcounts|].
    simpl. intros; lia. }
  rewrite increment_exact;
    [|eapply Forall_impl; [exact Hcounts|]; simpl; intros; lia
     |fold N; by rewrite max_pos].
  fold N.
  assert (length N = length counts) as HN by (subst N; by rewrite length_fmap).
  set (dims := zip (zip (ensure_iterator start) (ensure_iterator stop))
                 (seq 0 (length counts))).
  assert (Forall (fun x => (x.2 < length N)%nat) dims) as Hdims.
  { rewrite HN. apply zip_range_bound. }
  split.
  - intros pos paths Hret.
    destruct (call_dims_ret _ _ _ _ _ Hpos Hfit Hdims Hret)
      as (H1 & new & H2 & H3 & H4). simpl in *. subst. split; [done|].
    by rewrite H3.
  - intros Hps.
    destruct (call_dims_total (ensure_iterator positioners) N dims ([], [])
                Hpos Hfit Hdims) as [[pos paths] Hret].
    { eapply Forall_impl; [apply zip_range_bound|]. simpl. intros; lia. }
    exists pos, paths. split; [done|].
    destruct (call_dims_ret _ _ _ _ _ Hpos Hfit Hdims Hret) as (H1 & _).
    simpl in H1. rewrite H1. unfold groups_of, dims.
    apply groups_of_range; [|done].
    rewrite length_zip. lia.
Qed.

Lemma C2_path_lengths_witness :
  exists pos paths,
    call_paths (Many [One "x"; Many ["y"; "z"]])
      (Many [0; 0]%float) (Many [1; 10]%float) (Many [1; 2])
    = Ret (pos, paths) /\
    pos = concat (ensure_iterator <$>
            take 2 (ensure_iterator (Many [One "x"; Many ["y"; "z"]]))).
Proof.
  apply (C2_path_lengths (Many [One "x"; Many ["y"; "z"]])
           (Many [0; 0]%float) (Many [1; 10]%float) (Many [1; 2])).
  - reflexivity.
  - reflexivity.
  - repeat constructor; lia.
  - by vm_compute.
  - simpl. lia.
Defined.

(** C3, as amended. For a grid whose number of points fits in a 64-bit
    signed integer, the grid is ordered as a lexicographic Cartesian
    product: the linear path of a dimension is repeated point by point
    once per combination of the faster (higher-index) dimensions and
    tiled once per combination of the slower ones, so that point [i] of
    the path is the point of the linear path whose index is the digit of
    [i] at that dimension, the last dimension being the fastest digit; no
    tile is reversed. For D0=(0,1,1) and D1=(0,10,2) the paths are
    [0,0,0,1,1,1] and [0,5,10,0,5,10]. Here [npts] holds the effective
    sample counts. *)
Theorem C3_row_major_order (start stop : float) (npts : list Z) (dim : nat)
    (n : Z) :
  Forall (fun k => 1 <= k) npts ->
  product npts < 2 ^ 63 ->
  npts !! dim = Some n ->
  (exists lin path,
     calcLinearPath start stop n = Ret lin /\
     length lin = Z.to_nat n /\
     calculatePath start stop npts dim = Ret path /\
     path = concat (replicate (Z.to_nat (product (take dim npts)))
              (flat_map (replicate (Z.to_nat (product (drop (S dim) npts))))
                 lin)) /\
     forall i : nat, (i < Z.to_nat (product npts))%nat ->
       path !! i
       = lin !! ((i / Z.to_nat (product (drop (S dim) npts)))
                   mod Z.to_nat n)%nat) /\
  call_paths (Many [One "d0"; One "d1"]) (Many [0; 0]%float)
    (Many [1; 10]%float) (Many [1; 2])
  = Ret (["d0"; "d1"], [[0; 0; 0; 1; 1; 1]%float; [0; 5; 10; 0; 5; 10]%float]).
Proof.
  intros Hcounts Hfit Hd. split; [|by vm_compute].
  assert (Forall (fun k => 0 < k) npts) as Hpos.
  { eapply Forall_impl; [exact Hcounts|]. simpl. intros; lia. }
  assert (0 < n) as Hn.
  { rewrite Forall_forall in Hpos. apply Hpos. by eapply list_elem_of_lookup_2. }
  destruct (linspace_length start stop n) as (lin & Hlin & Hlen); [lia|].
  exists lin. eexists. split; [done|]. split; [done|].
  split; [by eapply calculatePath_grid|]. split; [done|].
  intros i Hi.
  pose proof (prod_pos (drop (S dim) npts) (Forall_drop _ _ _ Hpos)).
  pose proof (prod_pos (take dim npts) (Forall_take _ _ _ Hpos)).
  rewrite lookup_grid; [by rewrite Hlen|lia|].
  rewrite Hlen, <- !Z2Nat.inj_mul by lia.
  by rewrite <- (prod_split npts dim n Hd).
Qed.

Lemma C3_row_major_order_witness :
  exists lin path,
    calcLinearPath 0%float 10%float 3 = Ret lin /\
    length lin = Z.to_nat 3 /\
    calculatePath 0%float 10%float [2; 3] 1 = Ret path /\
    path = concat (replicate (Z.to_nat (product (take 1 [2; 3])))
             (flat_map (replicate (Z.to_nat (product (drop 2 [2; 3])))) lin)) /\
    forall i : nat, (i < Z.to_nat (product [2; 3]%Z))%nat ->
      path !! i
      = lin !! ((i / Z.to_nat (product (drop 2 [2; 3]%Z))) mod Z.to_nat 3%Z)%nat.
Proof.
  apply (C3_row_major_order 0%float 10%float [2; 3] 1%nat 3).
  - repeat constructor; lia.
  - by vm_compute.
  - reflexivity.
Defined.

(** C2, as stated, fails: with the sample counts 1, 2^32 - 1 and
    2^32 - 1 and positioners for the first dimension only, the grid has
    2^65 points, but the product of the two faster dimensions wraps to 0
    in 64 bits and the one path computed has no point at all. *)
Lemma C2_wrapped_product :
  Forall (fun c => 1 <= c) [1; 2 ^ 32 - 1; 2 ^ 32 - 1] /\
  call_paths (Many [One "x"; Many []; Many []]) (Many [0; 0; 0]%float)
    (Many [1; 1; 1]%float) (Many [1; 2 ^ 32 - 1; 2 ^ 32 - 1])
  = Ret (["x"], [[]]) /\
  product ((fun c => c + 1) <$> [1; 2 ^ 32 - 1; 2 ^ 32 - 1]) = 2 ^ 65.
Proof.
  split_and!.
  - repeat constructor; by vm_compute.
  - by vm_compute.
  - by vm_compute.
Qed.

(** C3, as stated, fails: in the grid of 2 by 2^32 by 2^32 points the
    linear path of dimension 0 has the two points 0 and 1, and the faster
    dimensions have 2^64 combinations, but their product wraps to 0 in 64
    bits: the path of dimension 0 is empty, not each point repeated 2^64
    times. *)
Lemma C3_wrapped_repeat :
  calcLinearPath 0%float 1%float 2 = Ret [0; 1]%float /\
  product (drop 1 [2; 2 ^ 32; 2 ^ 32]) = 2 ^ 64 /\
  np.prod (drop 1 [2; 2 ^ 32; 2 ^ 32]) = 0 /\
  calculatePath 0%float 1%float [2; 2 ^ 32; 2 ^ 32] 0 = Ret [].
Proof. split_and!; by vm_compute. Qed.

(** C9. One dimension from 0 to 10 with sample count 5 gives exactly
    [0, 2, 4, 6, 8, 10]: 5 + 1 evenly spaced points, both ends included. *)
Theorem C9_linear_0_10_5 :
  call_paths (One (One "m")) (One 0%float) (One 10%float) (One 5)
  = Ret (["m"], [[0; 2; 4; 6; 8; 10]%float]) /\
  calcLinearPath 0%float 10%float (5 + 1) = Ret [0; 2; 4; 6; 8; 10]%float.
Proof. split; vm_compute; reflexivity. Qed.

Lemma count_app (f : event -> bool) (a b : list event) :
  count f (a ++ b) = (count f a + count f b)%nat.
Proof. unfold count. by rewrite List.filter_app, length_app. Qed.

Lemma count_none (f : event -> bool) (t : list event) :
  (forall ev, ev ∈ t -> f ev = false) -> count f t = 0%nat.
Proof.
  unfold count. induction t as [|ev t IH]; intros Hf; simpl; [done|].
  rewrite (Hf ev) by apply list_elem_of_here.
  apply IH. intros ev' Hin. apply Hf. by apply list_elem_of_further.
Qed.

Lemma run_ids_app (a b : list event) : run_ids (a ++ b) = run_ids a ++ run_ids b.
Proof.
  induction a as [|[[]| |] a IH]; simpl; by rewrite ?IH.
Qed.

Lemma run_ids_none (t : list event) :
  Forall (fun ev => is_setTrajectory (call_of ev)) t -> run_ids t = [].
Proof. induction 1 as [|[[]| |] t Hev _ IH]; simpl in *; done. Qed.

(** What [scan_args] holds: four entries and no other. *)
Lemma scan_args_entries (s : Scan) :
  scan_args s !! "detectors" = Some (PyList (detectors s)) /\
  scan_args s !! "triggers" = Some (PyList (triggers s)) /\
  scan_args s !! "positioners" = Some (PyList (positioners s)) /\
  scan_args s !! "settle_time"
  = Some (from_option PyFloat PyNone (settle_time s)) /\
  forall k, k ∉ ["detectors"; "triggers"; "positioners"; "settle_time"] ->
            scan_args s !! k = None.
Proof.
  unfold scan_args. split_and!.
  - by rewrite !lookup_insert_ne, lookup_insert_eq by done.
  - by rewrite !lookup_insert_ne, lookup_insert_eq by done.
  - by rewrite !lookup_insert_ne, lookup_insert_eq by done.
  - by rewrite lookup_insert_eq.
  - intros k Hk. rewrite !not_elem_of_cons in Hk.
    destruct Hk as (? & ? & ? & ? & _).
    by rewrite !lookup_insert_ne, lookup_empty by done.
Qed.

#[local] Arguments scan_args : simpl never.

(** ** The scan lifecycle *)

Section lifecycle_facts.
Context {Env : Type} `{!Devices Env}.
Implicit Types (w : @World Env) (cls : @ScanClass Env).

Lemma bind_ret {Σ A B} (m : St Σ A) (k : A -> St Σ B) σ σ' a :
  m σ = (σ', Ret a) -> (m ≫= k) σ = k a σ'.
Proof. unfold mbind, St_bind. by intros ->. Qed.

Lemma bind_raise {Σ A B} (m : St Σ A) (k : A -> St Σ B) σ σ' x :
  m σ = (σ', Raise x) -> (m ≫= k) σ = (σ', Raise x).
Proof. unfold mbind, St_bind. by intros ->. Qed.

Lemma bind_diverge {Σ A B} (m : St Σ A) (k : A -> St Σ B) σ σ' :
  m σ = (σ', Diverge) -> (m ≫= k) σ = (σ', Diverge).
Proof. unfold mbind, St_bind. by intros ->. Qed.

(** A traced call leaves the state its callee leaves, ends as it ends,
    and adds the call and its ending to the trace. *)
Lemma traced_spec {A} (c : call) (v : A -> pyval) (m : St (Scan * Env) A) w :
  scan (traced c v m w).1 = (m (scan w, env w)).1.1 /\
  env (traced c v m w).1 = (m (scan w, env w)).1.2 /\
  (traced c v m w).2 = (m (scan w, env w)).2 /\
  trace (traced c v m w).1
  = trace w ++ Called c :: ending c v (m (scan w, env w)).2.
Proof.
  unfold traced. destruct (m (scan w, env w)) as [[s e] [a|x|]]; simpl;
    rewrite <- ?app_assoc; done.
Qed.

Lemma device_scan {A} (m : St Env A) (σ : Scan * Env) :
  (device m σ).1.1 = σ.1.
Proof. unfold device. by destruct (m σ.2). Qed.

(** The loop that hands out the trajectories. *)
Lemma send_all_spec (l : list (Positioner * list float)) w :
  scan (for_each send_trajectory l w).1 = scan w /\
  exists tl,
    trace (for_each send_trajectory l w).1 = trace w ++ tl /\
    Forall (fun ev => is_setTrajectory (call_of ev)) tl /\
    (forall c x, Raised c x ∈ tl ->
       (for_each send_trajectory l w).2 = Raise x) /\
    ((for_each send_trajectory l w).2 = Ret () ->
     forall pp, pp ∈ l -> Returned (SetTrajectory pp.1 pp.2) PyNone ∈ tl).
Proof.
  revert w. induction l as [|pp l IH]; intros w; simpl.
  - split; [done|]. exists []. rewrite app_nil_r.
    split_and!; [done|constructor|by intros ?? ?%elem_of_nil|].
    by intros _ ? ?%elem_of_nil.
  - change (for_each send_trajectory (pp :: l) w)
      with ((send_trajectory pp ≫= fun _ => for_each send_trajectory l) w).
    destruct (traced_spec (SetTrajectory pp.1 pp.2) (fun _ => PyNone)
                (device (set_trajectory pp.1 pp.2)) w) as (Hs & _ & Ho & Ht).
    rewrite device_scan in Hs. simpl in Hs.
    fold (send_trajectory pp) in *. rewrite <- Ho in Ht. clear Ho.
    destruct (send_trajectory pp w) as [w1 [[]|x|]] eqn:E1; simpl in *.
    + rewrite (bind_ret _ _ _ _ _ E1).
      destruct (IH w1) as (IHs & tl & IHt & IHf & IHr & IHa).
      split; [congruence|].
      exists ([Called (SetTrajectory pp.1 pp.2);
               Returned (SetTrajectory pp.1 pp.2) PyNone] ++ tl).
      split_and!.
      * rewrite IHt, Ht. by rewrite <- !app_assoc.
      * apply Forall_app. split; [by repeat constructor|done].
      * intros c x Hin. apply (IHr c). by trace_in.
      * intros Hret p' [->|Hin]%elem_of_cons; [trace_mem|].
        specialize (IHa Hret p' Hin). trace_mem.
    + rewrite (bind_raise _ _ _ _ _ E1). split; [done|].
      eexists. split; [exact Ht|]. simpl. split_and!.
      * by repeat constructor.
      * intros c x' Hin. by trace_in.
      * done.
    + rewrite (bind_diverge _ _ _ _ E1). split; [done|].
      eexists. split; [exact Ht|]. simpl. split_and!.
      * by repeat constructor.
      * intros c x' Hin. by trace_in.
      * done.
Qed.

Lemma traced_ret {A} (c : call) (v : A -> pyval) (m : St (Scan * Env) A) w s e a :
  m (scan w, env w) = ((s, e), Ret a) ->
  traced c v m w = (mkWorld s e (trace w ++ [Called c; Returned c (v a)]), Ret a).
Proof. unfold traced. intros ->. simpl. by rewrite <- app_assoc. Qed.

Lemma traced_raise {A} (c : call) (v : A -> pyval) (m : St (Scan * Env) A) w s e x :
  m (scan w, env w) = ((s, e), Raise x) ->
  traced c v m w = (mkWorld s e (trace w ++ [Called c; Raised c x]), Raise x).
Proof. unfold traced. intros ->. simpl. by rewrite <- app_assoc. Qed.

Lemma traced_diverge {A} (c : call) (v : A -> pyval) (m : St (Scan * Env) A) w s e :
  m (scan w, env w) = ((s, e), Diverge) ->
  traced c v m w = (mkWorld s e (trace w ++ [Called c]), Diverge).
Proof. unfold traced. by intros ->. Qed.

(** The body of the [with] block. *)
Lemma body_spec cls w :
  exists tb,
    trace (run_body cls w).1 = trace w ++ tb /\
    Forall (fun ev => inner (call_of ev)) tb /\
    (forall c x, Raised c x ∈ tb -> (run_body cls w).2 = Raise x) /\
    ((run_body cls w).2 = Ret () -> exists i a d,
       Returned (StartRun i a) (PyData d) ∈ tb /\
       data (scan (run_body cls w).1) = Some d) /\
    (forall i a, Called (StartRun i a) ∈ tb ->
       let s3 := (setup cls (scan w, env w)).1.1 in
       i = (_run_id s3 + 1)%Z /\ a = scan_args s3 /\
       forall pp, pp ∈ zip (positioners s3) (paths s3) ->
         Returned (SetTrajectory pp.1 pp.2) PyNone ∈ tb) /\
    (keeps_data (setupDetectors cls) -> keeps_data (setupTriggers cls) ->
     forall i a x, Raised (StartRun i a) x ∈ tb ->
       data (scan (run_body cls w).1) = data (scan w) /\
       exists t, tb = t ++ [Raised (StartRun i a) x]) /\
    _run_id (scan (run_body cls w).1)
    = _run_id (setup cls (scan w, env w)).1.1 /\
    exists k, run_ids tb
              = replicate k (_run_id (setup cls (scan w, env w)).1.1 + 1)%Z /\
              ((run_body cls w).2 = Ret () -> k = 1%nat).
Proof.
  unfold run_body, hook.
  destruct (setupDetectors cls (scan w, env w)) as [[s1 e1] [[]|x|]] eqn:Esd.
  2:{ rewrite (bind_raise _ _ _ _ _ (traced_raise _ _ _ _ _ _ _ Esd)).
      unfold setup. rewrite (bind_raise _ _ _ _ _ Esd). simpl.
      eexists. split; [done|]. split_and!;
        [by repeat constructor|intros; by trace_in|done|intros; by trace_in
        |intros; by trace_in|done|by exists 0%nat]. }
  2:{ rewrite (bind_diverge _ _ _ _ (traced_diverge _ _ _ _ _ _ Esd)).
      unfold setup. rewrite (bind_diverge _ _ _ _ Esd). simpl.
      eexists. split; [done|]. split_and!;
        [by repeat constructor|intros; by trace_in|done|intros; by trace_in
        |intros; by trace_in|done|by exists 0%nat]. }
  rewrite (bind_ret _ _ _ _ _ (traced_ret _ _ _ _ _ _ _ Esd)).
  unfold setup. rewrite (bind_ret _ _ _ _ _ Esd).
  set (w1 := mkWorld s1 e1 _).
  change (setupTriggers cls (s1, e1))
    with (setupTriggers cls (scan w1, env w1)).
  destruct (setupTriggers cls (scan w1, env w1)) as [[s2 e2] [[]|x|]] eqn:Est.
  2:{ rewrite (bind_raise _ _ _ _ _ (traced_raise _ _ _ _ _ _ _ Est)). simpl.
      rewrite <- app_assoc.
      eexists. split; [done|]. split_and!;
        [by repeat constructor|intros; by trace_in|done|intros; by trace_in
        |intros; by trace_in|done|by exists 0%nat]. }
  2:{ rewrite (bind_diverge _ _ _ _ (traced_diverge _ _ _ _ _ _ Est)). simpl.
      rewrite <- app_assoc.
      eexists. split; [done|]. split_and!;
        [by repeat constructor|intros; by trace_in|done|intros; by trace_in
        |intros; by trace_in|done|by exists 0%nat]. }
  rewrite (bind_ret _ _ _ _ _ (traced_ret _ _ _ _ _ _ _ Est)).
  set (w2 := mkWorld s2 e2 _).
  rewrite (bind_ret observe _ w2 w2 s2 eq_refl). cbv beta.
  destruct (send_all_spec (zip (positioners s2) (paths s2)) w2)
    as (Hls & tl & Hlt & Hlf & Hlr & Hla).
  assert (forall ev, ev ∈ tl -> is_setTrajectory (call_of ev)) as Hlf'
    by (by apply Forall_forall).
  assert (Forall (fun ev => inner (call_of ev)) tl) as Hli.
  { eapply Forall_impl; [exact Hlf|]. by intros [[]|[]|[]]. }
  pose proof (run_ids_none tl Hlf) as Hids.
  assert (trace w2 = trace w ++
            [Called SetupDetectors; Returned SetupDetectors PyNone;
             Called SetupTriggers; Returned SetupTriggers PyNone]) as Hw2.
  { simpl. by rewrite <- app_assoc. }
  assert (keeps_data (setupDetectors cls) -> keeps_data (setupTriggers cls) ->
          _last_data s2 = _last_data (scan w)) as Hkeep.
  { intros K1 K2. specialize (K1 (scan w, env w)). rewrite Esd in K1.
    specialize (K2 (scan w1, env w1)). rewrite Est in K2. simpl in *.
    congruence. }
  assert (scan w2 = s2) as Hsw2 by done.
  clearbody w2 w1. simpl fst.
  destruct (for_each send_trajectory _ w2) as [w3 [[]|x|]] eqn:El.
  2:{ rewrite (bind_raise _ _ _ _ _ El). simpl in *. rewrite Hlt, Hw2, <- app_assoc.
      eexists. split; [done|]. split_and!.
      - apply Forall_app. split; [by repeat constructor|done].
      - intros c x' Hin. trace_in. by apply (Hlr c).
      - done.
      - intros i a Hin. trace_in. by apply Hlf' in Hin.
      - intros _ _ i a x' Hin. trace_in. by apply Hlf' in Hin.
      - congruence.
      - exists 0%nat. by rewrite run_ids_app, Hids. }
  2:{ rewrite (bind_diverge _ _ _ _ El). simpl in *. rewrite Hlt, Hw2, <- app_assoc.
      eexists. split; [done|]. split_and!.
      - apply Forall_app. split; [by repeat constructor|done].
      - intros c x' Hin. trace_in. by apply (Hlr c).
      - done.
      - intros i a Hin. trace_in. by apply Hlf' in Hin.
      - intros _ _ i a x' Hin. trace_in. by apply Hlf' in Hin.
      - congruence.
      - exists 0%nat. by rewrite run_ids_app, Hids. }
  rewrite (bind_ret _ _ _ _ _ El).
  rewrite (bind_ret observe _ w3 w3 (scan w3) eq_refl). cbv beta zeta.
  simpl in Hls, Hlt, Hlr, Hla. rewrite Hls, Hsw2.
  destruct (device (start_run (_run_id s2 + 1) (scan_args s2)) (scan w3, env w3))
    as [[s4 e4] [d|x|]] eqn:Esr;
    pose proof (device_scan (start_run (_run_id s2 + 1) (scan_args s2))
                  (scan w3, env w3)) as Hs4;
    rewrite Esr in Hs4; simpl in Hs4; rewrite Hls, Hsw2 in Hs4; subst s4.
  - rewrite (bind_ret _ _ _ _ _ (traced_ret _ _ _ _ _ _ _ Esr)). simpl.
    rewrite Hlt, Hw2, <- !app_assoc.
    eexists. split; [done|]. split_and!.
    + apply Forall_app. split; [by repeat constructor|].
      apply Forall_app. split; [done|by repeat constructor].
    + intros c x' Hin. trace_in. by specialize (Hlr c x' Hin).
    + intros _. exists (_run_id s2 + 1)%Z, (scan_args s2), d. split; [trace_mem|done].
    + intros i a Hin. trace_in; [by apply Hlf' in Hin|].
      split; [done|]. split; [done|]. intros pp Hpp.
      specialize (Hla eq_refl pp Hpp). trace_mem.
    + intros _ _ i a x' Hin. trace_in. by specialize (Hlr _ x' Hin).
    + done.
    + exists 1%nat. by rewrite !run_ids_app, Hids.
  - rewrite (bind_raise _ _ _ _ _ (traced_raise _ _ _ _ _ _ _ Esr)). simpl.
    rewrite Hlt, Hw2, <- !app_assoc.
    eexists. split; [done|]. split_and!.
    + apply Forall_app. split; [by repeat constructor|].
      apply Forall_app. split; [done|by repeat constructor].
    + intros c x' Hin. trace_in; [by specialize (Hlr c x' Hin)|done].
    + done.
    + intros i a Hin. trace_in; [by apply Hlf' in Hin|].
      split; [done|]. split; [done|]. intros pp Hpp.
      specialize (Hla eq_refl pp Hpp). trace_mem.
    + intros K1 K2 i a x' Hin. split.
      * unfold data. by apply Hkeep.
      * trace_in; [by specialize (Hlr _ x' Hin)|].
        match goal with
        | |- context [?p ++ ?t ++ [?e; Raised _ _]] => exists (p ++ t ++ [e])
        end.
        by rewrite <- !app_assoc.
    + done.
    + exists 1%nat. by rewrite !run_ids_app, Hids.
  - rewrite (bind_diverge _ _ _ _ (traced_diverge _ _ _ _ _ _ Esr)). simpl.
    rewrite Hlt, Hw2, <- !app_assoc.
    eexists. split; [done|]. split_and!.
    + apply Forall_app. split; [by repeat constructor|].
      apply Forall_app. split; [done|by repeat constructor].
    + intros c x' Hin. trace_in. by specialize (Hlr c x' Hin).
    + done.
    + intros i a Hin. trace_in; [by apply Hlf' in Hin|].
      split; [done|]. split; [done|]. intros pp Hpp.
      specialize (Hla eq_refl pp Hpp). trace_mem.
    + intros _ _ i a x' Hin. trace_in. by specialize (Hlr _ x' Hin).
    + done.
    + exists 1%nat. by rewrite !run_ids_app, Hids.
Qed.

(** Every call of [run] goes one of the four ways. *)
Lemma run_cases cls w : run_case cls w (run cls w).
Proof.
  unfold run, hook.
  destruct (checkPaths cls (scan w, env w)) as [[s0 e0] [[]|x|]] eqn:Ecp.
  2:{ rewrite (bind_raise _ _ _ _ _ (traced_raise _ _ _ _ _ _ _ Ecp)).
      by apply (run_check_fails cls w s0 e0 (Raise x)). }
  2:{ rewrite (bind_diverge _ _ _ _ (traced_diverge _ _ _ _ _ _ Ecp)).
      by apply (run_check_fails cls w s0 e0 Diverge). }
  rewrite (bind_ret _ _ _ _ _ (traced_ret _ _ _ _ _ _ _ Ecp)).
  unfold with_, Scan_enter, hook. cbv zeta.
  set (w1 := mkWorld s0 e0 _).
  destruct (preScan cls (scan w1, env w1)) as [[s1 e1] [[]|x|]] eqn:Eps.
  2:{ rewrite (bind_raise _ _ _ _ _ (traced_raise _ _ _ _ _ _ _ Eps)).
      subst w1. simpl. rewrite <- app_assoc.
      by apply (run_enter_fails cls w s0 e0 s1 e1 (Raise x)). }
  2:{ rewrite (bind_diverge _ _ _ _ (traced_diverge _ _ _ _ _ _ Eps)).
      subst w1. simpl. rewrite <- app_assoc.
      by apply (run_enter_fails cls w s0 e0 s1 e1 Diverge). }
  rewrite (bind_ret _ _ _ _ _ (traced_ret _ _ _ _ _ _ _ Eps)).
  subst w1. cbv beta. simpl trace. rewrite <- app_assoc. simpl app.
  fold entered. simpl in Eps.
  destruct (run_body cls (mkWorld s1 e1 (trace w ++ entered)))
    as [w3 rb] eqn:Eb.
  destruct rb as [[]|x|].
  3:{ by eapply run_block_hangs. }
  - unfold Scan_exit, hook.
    destruct (postScan cls (scan w3, env w3)) as [[s4 e4] [[]|x|]] eqn:Epo.
    + rewrite (bind_ret _ _ _ _ _ (bind_ret _ _ _ _ _ (traced_ret _ _ _ _ _ _ _ Epo))).
      by apply (run_exits cls w s0 e0 s1 e1 w3 (Ret ()) s4 e4 (Ret ())).
    + rewrite (bind_raise _ _ _ _ _ (bind_raise _ _ _ _ _ (traced_raise _ _ _ _ _ _ _ Epo))).
      by apply (run_exits cls w s0 e0 s1 e1 w3 (Ret ()) s4 e4 (Raise x)).
    + rewrite (bind_diverge _ _ _ _ (bind_diverge _ _ _ _ (traced_diverge _ _ _ _ _ _ Epo))).
      by apply (run_exits cls w s0 e0 s1 e1 w3 (Ret ()) s4 e4 Diverge).
  - unfold Scan_exit, hook.
    destruct (postScan cls (scan w3, env w3)) as [[s4 e4] [[]|x'|]] eqn:Epo.
    + rewrite (bind_ret _ _ _ _ _ (bind_ret _ _ _ _ _ (traced_ret _ _ _ _ _ _ _ Epo))).
      by apply (run_exits cls w s0 e0 s1 e1 w3 (Raise x) s4 e4 (Ret ())).
    + rewrite (bind_raise _ _ _ _ _ (bind_raise _ _ _ _ _ (traced_raise _ _ _ _ _ _ _ Epo))).
      by apply (run_exits cls w s0 e0 s1 e1 w3 (Raise x) s4 e4 (Raise x')).
    + rewrite (bind_diverge _ _ _ _ (bind_diverge _ _ _ _ (traced_diverge _ _ _ _ _ _ Epo))).
      by apply (run_exits cls w s0 e0 s1 e1 w3 (Raise x) s4 e4 Diverge).
Qed.

Lemma count_postScan_inner (t : list event) :
  Forall (fun ev => inner (call_of ev)) t -> count is_postScan t = 0%nat.
Proof.
  intros Hin. apply count_none. intros ev Hev.
  rewrite Forall_forall in Hin. specialize (Hin ev Hev).
  by destruct ev as [[]| |].
Qed.

Lemma count_preScan_inner (t : list event) :
  Forall (fun ev => inner (call_of ev)) t -> count is_preScan t = 0%nat.
Proof.
  intros Hin. apply count_none. intros ev Hev.
  rewrite Forall_forall in Hin. specialize (Hin ev Hev).
  by destruct ev as [[]| |].
Qed.

(** C1, as amended. In every call of [run] that returns or raises and
    in which [preScan] returned, [postScan] is called exactly once; and
    whichever call of the block raised ([setupDetectors],
    [setupTriggers], a [set_trajectory] or the engine's [start_run]),
    [run] does not return normally: when [postScan] returns, [run] raises
    that same exception; when [postScan] itself raises, its exception is
    the one [run] raises. *)
Theorem C1_postScan_once cls (s : Scan) (e : Env) :
  (exec cls s e).2 <> Diverge ->
  Returned PreScan PyNone ∈ trace (exec cls s e).1 ->
  count is_postScan (trace (exec cls s e).1) = 1%nat /\
  (forall c x, c <> PostScan -> Raised c x ∈ trace (exec cls s e).1 ->
     (exec cls s e).2 <> Ret () /\
     (Returned PostScan PyNone ∈ trace (exec cls s e).1 ->
      (exec cls s e).2 = Raise x)) /\
  forall x', Raised PostScan x' ∈ trace (exec cls s e).1 ->
    (exec cls s e).2 = Raise x'.
Proof.
  unfold exec.
  destruct (run_cases cls (mkWorld s e []))
    as [s0 e0 o Ecp Ho|s0 e0 s1 e1 o Ecp Eps Ho|s0 e0 s1 e1 w3 Ecp Eps Eb
       |s0 e0 s1 e1 w3 rb s4 e4 ox Ecp Eps Eb Hrb Epo]; simpl.
  - intros _ Hin. destruct o; simpl in Hin; by trace_in.
  - intros _ Hin. destruct o as [[]| |]; simpl in Hin; by trace_in.
  - done.
  - match type of Eb with run_body _ ?w2 = _ =>
      destruct (body_spec cls w2) as (tb & Htb & Hinner & Hraise & _)
    end.
    rewrite Eb in Htb, Hraise. cbn [fst snd trace] in Htb, Hraise.
    rewrite app_nil_l in Htb. rewrite Htb.
    assert (forall ev, ev ∈ tb -> inner (call_of ev)) as Hinner'
      by (by apply Forall_forall).
    intros Hout _. split_and!.
    + rewrite !count_app, (count_postScan_inner tb Hinner).
      by destruct ox.
    + intros c x Hc Hin.
      assert (rb = Raise x) as ->.
      { unfold entered in Hin. destruct ox; simpl in Hin; trace_in;
          first [done | match goal with
                        | H : Raised ?c' ?x' ∈ tb |- _ => by apply (Hraise c' x')
                        end]. }
      split; [by destruct ox|].
      intros Hret. destruct ox as [[]|x'|]; [done| |done].
      unfold entered in Hret. simpl in Hret.
      trace_in; by apply Hinner' in Hret.
    + intros x' Hin. unfold entered in Hin.
      destruct ox as [[]|x''|]; simpl in Hin; trace_in;
        first [done | by apply Hinner' in Hin].
Qed.

(** C10. If [preScan] raises, or the validation of the paths raises,
    [postScan] is not called in that call of [run], which raises the same
    exception; after a failed validation [preScan] is not called
    either. *)
Theorem C10_no_postScan_without_enter cls (s : Scan) (e : Env) (x : exn) :
  Raised PreScan x ∈ trace (exec cls s e).1 \/
  Raised CheckPaths x ∈ trace (exec cls s e).1 ->
  count is_postScan (trace (exec cls s e).1) = 0%nat /\
  (exec cls s e).2 = Raise x /\
  (Raised CheckPaths x ∈ trace (exec cls s e).1 ->
   count is_preScan (trace (exec cls s e).1) = 0%nat).
Proof.
  unfold exec.
  destruct (run_cases cls (mkWorld s e []))
    as [s0 e0 o Ecp Ho|s0 e0 s1 e1 o Ecp Eps Ho|s0 e0 s1 e1 w3 Ecp Eps Eb
       |s0 e0 s1 e1 w3 rb s4 e4 ox Ecp Eps Eb Hrb Epo]; cbn [fst snd trace].
  - intros Hin. destruct o as [[]|x'|]; [done| |]; simpl in *;
      destruct Hin as [Hin|Hin]; by trace_in.
  - intros Hin. destruct o as [[]|x'|]; [done| |]; simpl in *;
      destruct Hin as [Hin|Hin]; trace_in; split_and!; try done;
      intros Hin; by trace_in.
  - match type of Eb with run_body _ ?w2 = _ =>
      destruct (body_spec cls w2) as (tb & Htb & Hinner & _)
    end.
    rewrite Eb in Htb. cbn [fst snd trace] in Htb.
    rewrite app_nil_l in Htb. rewrite Htb.
    assert (forall ev, ev ∈ tb -> inner (call_of ev)) as Hinner'
      by (by apply Forall_forall).
    unfold entered. intros [Hin|Hin]; trace_in; by apply Hinner' in Hin.
  - match type of Eb with run_body _ ?w2 = _ =>
      destruct (body_spec cls w2) as (tb & Htb & Hinner & _)
    end.
    rewrite Eb in Htb. cbn [fst snd trace] in Htb.
    rewrite app_nil_l in Htb. rewrite Htb.
    assert (forall ev, ev ∈ tb -> inner (call_of ev)) as Hinner'
      by (by apply Forall_forall).
    unfold entered.
    intros [Hin|Hin]; destruct ox; simpl in Hin; trace_in;
      by apply Hinner' in Hin.
Qed.

(** C7, as amended. For a class whose hooks leave the captured dataset
    alone: if the engine's [start_run] raises, the dataset after [run] is
    the one before it, [postScan] is called right after the failure, and
    [run] does not return normally: it raises the engine's exception
    when [postScan] returns, and the exception of [postScan] when that
    raises; if [run] returns, the dataset is the one the engine
    returned. *)
Theorem C7_data_after_run cls (s : Scan) (e : Env) :
  class_keeps_data cls ->
  (forall i a x, Raised (StartRun i a) x ∈ trace (exec cls s e).1 ->
     data (scan (exec cls s e).1) = data s /\
     (exists t t', trace (exec cls s e).1
        = t ++ [Raised (StartRun i a) x; Called PostScan] ++ t') /\
     (exec cls s e).2 <> Ret () /\
     (Returned PostScan PyNone ∈ trace (exec cls s e).1 ->
      (exec cls s e).2 = Raise x) /\
     (forall x', Raised PostScan x' ∈ trace (exec cls s e).1 ->
        (exec cls s e).2 = Raise x')) /\
  ((exec cls s e).2 = Ret () ->
   exists i a d,
     Returned (StartRun i a) (PyData d) ∈ trace (exec cls s e).1 /\
     data (scan (exec cls s e).1) = Some d).
Proof.
  intros (Kcp & Kpre & Kpost & Ksd & Kst). unfold exec.
  destruct (run_cases cls (mkWorld s e []))
    as [s0 e0 o Ecp Ho|s0 e0 s1 e1 o Ecp Eps Ho|s0 e0 s1 e1 w3 Ecp Eps Eb
       |s0 e0 s1 e1 w3 rb s4 e4 ox Ecp Eps Eb Hrb Epo]; cbn [fst snd trace scan].
  - split; [|done]. intros i a x Hin. destruct o; simpl in Hin; by trace_in.
  - split; [|done]. intros i a x Hin.
    destruct o as [[]| |]; simpl in Hin; by trace_in.
  - split; [|done]. intros i a x Hin.
    match type of Eb with run_body _ ?w2 = _ =>
      destruct (body_spec cls w2) as (tb & Htb & _ & Hraise & _)
    end.
    rewrite Eb in Htb, Hraise. cbn [fst snd trace] in Htb, Hraise.
    rewrite app_nil_l in Htb. rewrite Htb in Hin.
    unfold entered in Hin. trace_in. by specialize (Hraise _ _ Hin).
  - match type of Eb with run_body _ ?w2 = _ =>
      destruct (body_spec cls w2)
        as (tb & Htb & Hinner & Hraise & Hret & _ & Hkeep & _)
    end.
    specialize (Hkeep Ksd Kst).
    rewrite Eb in Htb, Hraise, Hret, Hkeep.
    cbn [fst snd trace scan] in Htb, Hraise, Hret, Hkeep.
    rewrite app_nil_l in Htb. rewrite Htb.
    assert (forall ev, ev ∈ tb -> inner (call_of ev)) as Hinner'
      by (by apply Forall_forall).
    assert (data s4 = data (scan w3)) as Hs4.
    { specialize (Kpost (scan w3, env w3)). by rewrite Epo in Kpost. }
    assert (data s1 = data s) as Hs1.
    { specialize (Kcp (s, e)). simpl in Ecp. rewrite Ecp in Kcp.
      specialize (Kpre (s0, e0)). rewrite Eps in Kpre. unfold data.
      simpl in *. congruence. }
    split.
    + intros i a x Hin.
      assert (Raised (StartRun i a) x ∈ tb) as Hin'.
      { unfold entered in Hin. destruct ox; simpl in Hin; by trace_in. }
      destruct (Hkeep i a x Hin') as (Hdata & t & Htbeq).
      rewrite (Hraise _ _ Hin'). split_and!.
      * congruence.
      * exists (entered ++ t), (ending PostScan (fun _ => PyNone) ox).
        rewrite Htbeq. by rewrite <- !app_assoc.
      * by destruct ox.
      * intros Hpost. destruct ox as [[]|x'|]; [done| |];
          unfold entered in Hpost; simpl in Hpost;
          trace_in; by apply Hinner' in Hpost.
      * intros x' Hpost. unfold entered in Hpost.
        destruct ox as [[]|x''|]; simpl in Hpost; trace_in;
          first [done | by apply Hinner' in Hpost].
    + intros Hout. destruct ox as [[]| |]; [|done|done]. subst rb.
      destruct (Hret eq_refl) as (i & a & d & Hin & Hd).
      exists i, a, d. split; [trace_mem|congruence].
Qed.

(** C6, as amended. Whenever [run] calls the engine, the run id is the
    stored id plus one and [scan_args] has exactly four entries, the
    effective detectors, the effective triggers, the positioners and the
    settle time of the scan object as the setup hooks left it; it has no
    entry for the trajectories, each of which has by then been handed to
    its positioner with [set_trajectory]. *)
Theorem C6_scan_request cls (s : Scan) (e : Env) (i : Z)
    (a : gmap string pyval) :
  Called (StartRun i a) ∈ trace (exec cls s e).1 ->
  i = (_run_id (configure cls (s, e)).1.1 + 1)%Z /\
  a = scan_args (configure cls (s, e)).1.1 /\
  a !! "detectors" = Some (PyList (detectors (configure cls (s, e)).1.1)) /\
  a !! "triggers" = Some (PyList (triggers (configure cls (s, e)).1.1)) /\
  a !! "positioners"
  = Some (PyList (positioners (configure cls (s, e)).1.1)) /\
  a !! "settle_time"
  = Some (from_option PyFloat PyNone
            (settle_time (configure cls (s, e)).1.1)) /\
  (forall k, k ∉ ["detectors"; "triggers"; "positioners"; "settle_time"] ->
             a !! k = None) /\
  a !! "trajectories" = None /\
  forall pp,
    pp ∈ zip (positioners (configure cls (s, e)).1.1)
             (paths (configure cls (s, e)).1.1) ->
    Returned (SetTrajectory pp.1 pp.2) PyNone ∈ trace (exec cls s e).1.
Proof.
  unfold exec.
  destruct (run_cases cls (mkWorld s e []))
    as [s0 e0 o Ecp Ho|s0 e0 s1 e1 o Ecp Eps Ho|s0 e0 s1 e1 w3 Ecp Eps Eb
       |s0 e0 s1 e1 w3 rb s4 e4 ox Ecp Eps Eb Hrb Epo]; cbn [fst snd trace scan].
  - intros Hin. destruct o; simpl in Hin; by trace_in.
  - intros Hin. destruct o as [[]| |]; simpl in Hin; by trace_in.
  - match type of Eb with run_body _ ?w2 = _ =>
      destruct (body_spec cls w2) as (tb & Htb & _ & _ & _ & Hreq & _)
    end.
    rewrite Eb in Htb. cbn [fst snd trace scan env] in Htb, Hreq.
    rewrite app_nil_l in Htb. rewrite Htb.
    assert ((configure cls (s, e)).1.1 = (setup cls (s1, e1)).1.1) as ->.
    { unfold configure. simpl in Ecp. rewrite (bind_ret _ _ _ _ _ Ecp).
      by rewrite (bind_ret _ _ _ _ _ Eps). }
    intros Hin. unfold entered in Hin. trace_in.
    destruct (Hreq i a Hin) as (-> & -> & Hall).
    destruct (scan_args_entries (setup cls (s1, e1)).1.1)
      as (? & ? & ? & ? & Hother).
    split_and!; [done|done|done|done|done|done|done| |].
    + apply Hother. rewrite !not_elem_of_cons. split_and!; try done.
      apply not_elem_of_nil.
    + intros pp Hpp. specialize (Hall pp Hpp). trace_mem.
  - match type of Eb with run_body _ ?w2 = _ =>
      destruct (body_spec cls w2) as (tb & Htb & _ & _ & _ & Hreq & _)
    end.
    rewrite Eb in Htb. cbn [fst snd trace scan env] in Htb, Hreq.
    rewrite app_nil_l in Htb. rewrite Htb.
    assert ((configure cls (s, e)).1.1 = (setup cls (s1, e1)).1.1) as ->.
    { unfold configure. simpl in Ecp. rewrite (bind_ret _ _ _ _ _ Ecp).
      by rewrite (bind_ret _ _ _ _ _ Eps). }
    intros Hin.
    assert (Called (StartRun i a) ∈ tb) as Hin'.
    { unfold entered in Hin. destruct ox; simpl in Hin; by trace_in. }
    destruct (Hreq i a Hin') as (-> & -> & Hall).
    destruct (scan_args_entries (setup cls (s1, e1)).1.1)
      as (? & ? & ? & ? & Hother).
    split_and!; [done|done|done|done|done|done|done| |].
    + apply Hother. rewrite !not_elem_of_cons. split_and!; try done.
      apply not_elem_of_nil.
    + intros pp Hpp. specialize (Hall pp Hpp). trace_mem.
Qed.

(** One run of a [Scan]: the engine gets the stored id plus one, at most
    once, and the stored id stays what it was. *)
Lemma run_keeps_run_id w :
  run_id (scan (run Scan_class w).1) = run_id (scan w) /\
  exists k,
    run_ids (trace (run Scan_class w).1)
    = run_ids (trace w) ++ replicate k (run_id (scan w) + 1)%Z /\
    ((run Scan_class w).2 = Ret () -> k = 1%nat).
Proof.
  destruct (run_cases Scan_class w)
    as [s0 e0 o Ecp Ho|s0 e0 s1 e1 o Ecp Eps Ho|s0 e0 s1 e1 w3 Ecp Eps Eb
       |s0 e0 s1 e1 w3 rb s4 e4 ox Ecp Eps Eb Hrb Epo];
    cbn [fst snd trace scan].
  - by injection Ecp as <- <- <-.
  - by injection Eps as <- <- <-.
  - injection Ecp as <- <-. injection Eps as <- <-.
    match type of Eb with run_body _ ?w2 = _ =>
      destruct (body_spec Scan_class w2)
        as (tb & Htb & _ & _ & _ & _ & _ & Hid & k & Hids & _)
    end.
    rewrite Eb in Htb, Hid. cbn [fst snd trace scan env] in Htb, Hid, Hids.
    split; [exact Hid|]. exists k. split; [|done].
    rewrite Htb, !run_ids_app, Hids. simpl. by rewrite app_nil_r.
  - injection Ecp as <- <-. injection Eps as <- <-.
    injection Epo as <- <- <-.
    match type of Eb with run_body _ ?w2 = _ =>
      destruct (body_spec Scan_class w2)
        as (tb & Htb & _ & _ & _ & _ & _ & Hid & k & Hids & Hk)
    end.
    rewrite Eb in Htb, Hid, Hk.
    cbn [fst snd trace scan env] in Htb, Hid, Hids, Hk.
    split; [exact Hid|]. exists k. split; [|done].
    rewrite !run_ids_app, Htb, !run_ids_app, Hids. simpl.
    by rewrite !app_nil_r.
Qed.

(** C5 (what the code does). However many times [run] is called on a
    [Scan], the stored run id stays what it was and every call of the
    engine gets that id plus one: [n] successful runs of a new scan all
    pass the id 1, and [run_id] still answers 0. *)
Theorem C5_run_id_never_advances (n : nat) w :
  run_id (scan (runs Scan_class n w).1) = run_id (scan w) /\
  exists k,
    run_ids (trace (runs Scan_class n w).1)
    = run_ids (trace w) ++ replicate k (run_id (scan w) + 1)%Z /\
    ((runs Scan_class n w).2 = Ret () -> k = n).
Proof.
  revert w. induction n as [|n IH]; intros w.
  - simpl. split; [done|]. exists 0%nat. by rewrite app_nil_r.
  - change (runs Scan_class (S n) w)
      with ((run Scan_class ≫= fun _ => runs Scan_class n) w).
    destruct (run_keeps_run_id w) as (Hid & k & Hids & Hk).
    destruct (run Scan_class w) as [w1 [[]|x|]] eqn:Erun;
      cbn [fst snd] in Hid, Hids, Hk.
    + rewrite (bind_ret _ _ _ _ _ Erun).
      destruct (IH w1) as (Hid' & k' & Hids' & Hk').
      split; [congruence|]. exists (k + k')%nat. split.
      * rewrite Hids', Hids, Hid, <- app_assoc. by rewrite replicate_add.
      * intros Hret. rewrite (Hk eq_refl), (Hk' Hret). done.
    + rewrite (bind_raise _ _ _ _ _ Erun). cbn [fst snd].
      split; [done|]. by exists k.
    + rewrite (bind_diverge _ _ _ _ Erun). cbn [fst snd].
      split; [done|]. by exists k.
Qed.
End lifecycle_facts.

(** ** The differential scan in the ideal laboratory *)

Lemma motor_of_with_motor (p q : string) (f : motor -> motor) (l : lab) :
  motor_of (with_motor p f l) q
  = if decide (p = q) then f (motor_of l p) else motor_of l q.
Proof.
  unfold motor_of, with_motor. simpl. case_decide as Hpq.
  - subst. by rewrite lookup_total_insert_eq.
  - by rewrite lookup_total_insert_ne.
Qed.

Lemma lab_position (p : string) (l : lab) :
  position p l = (l, Ret (m_position (motor_of l p))).
Proof. reflexivity. Qed.

Lemma lab_moving (p : string) (l : lab) :
  moving p l = (l, Ret (m_moving (motor_of l p))).
Proof. reflexivity. Qed.

Lemma lab_move_blocking (p : string) (target : float) (l : lab) :
  move p target true l
  = (mkLab (motors (with_motor p (lab_move_motor target true) l)) (replies l)
       (logbook l) (journal l ++ [(p, target, true)]), Ret ()).
Proof. reflexivity. Qed.

Lemma collect_position (ps : list string) (l : lab) :
  collect position ps l = (l, Ret ((fun p => m_position (motor_of l p)) <$> ps)).
Proof.
  induction ps as [|p ps IH]; [done|].
  change (collect position (p :: ps) l)
    with ((position p ≫= fun b => collect position ps ≫= fun bs =>
           mret (b :: bs)) l).
  rewrite (bind_ret _ _ _ _ _ (lab_position p l)).
  by rewrite (bind_ret _ _ _ _ _ IH).
Qed.

Lemma collect_moving (ps : list string) (l : lab) :
  collect moving ps l = (l, Ret ((fun p => m_moving (motor_of l p)) <$> ps)).
Proof.
  induction ps as [|p ps IH]; [done|].
  change (collect moving (p :: ps) l)
    with ((moving p ≫= fun b => collect moving ps ≫= fun bs =>
           mret (b :: bs)) l).
  rewrite (bind_ret _ _ _ _ _ (lab_moving p l)).
  by rewrite (bind_ret _ _ _ _ _ IH).
Qed.

(** Blocking moves of the motors [ps] to the targets [f p]. *)
Lemma moves_back (f : string -> float) (ps : list string) (l : lab) :
  exists l',
    for_each (fun pt : string * float => move pt.1 pt.2 true)
      (zip ps (f <$> ps)) l = (l', Ret ()) /\
    journal l' = journal l ++ ((fun p => (p, f p, true)) <$> ps) /\
    forall p,
      (p ∈ ps -> m_position (motor_of l' p) = f p /\
                 m_moving (motor_of l' p) = false) /\
      (p ∉ ps -> motor_of l' p = motor_of l p).
Proof.
  revert l. induction ps as [|q ps IH]; intros l.
  - exists l. simpl. rewrite app_nil_r. split_and!; try done.
    intros p. split; [by intros ?%elem_of_nil|done].
  - change (for_each ?g (zip (q :: ps) (f <$> q :: ps)) l)
      with ((move q (f q) true ≫= fun _ =>
             for_each g (zip ps (f <$> ps))) l).
    rewrite (bind_ret _ _ _ _ _ (lab_move_blocking q (f q) l)).
    set (l1 := mkLab _ _ _ _).
    destruct (IH l1) as (l' & Hrun & Hj & Hm).
    exists l'. split; [done|]. split.
    + rewrite Hj. subst l1. simpl. by rewrite <- app_assoc.
    + assert (forall p, motor_of l1 p
                = if decide (q = p) then lab_move_motor (f q) true (motor_of l q)
                  else motor_of l p) as Hl1.
      { intros p. apply (motor_of_with_motor q p _ l). }
      intros p. destruct (Hm p) as [Hin Hout].
      destruct (decide (p ∈ ps)) as [Hp|Hp].
      * split; [by intros _; apply Hin|].
        intros Hnot. destruct Hnot. by apply list_elem_of_further.
      * split.
        -- intros [->|?]%elem_of_cons; [|done].
           rewrite (Hout Hp), Hl1. by rewrite decide_True.
        -- intros Hnot. rewrite (Hout Hp), Hl1.
           rewrite decide_False; [done|].
           intros ->. apply Hnot. apply list_elem_of_here.
Qed.

Lemma poll_at_rest (fuel : nat) (ps : list string) (l : lab) :
  (forall p, p ∈ ps -> m_moving (motor_of l p) = false) ->
  poll (S fuel) ps l = (l, Ret ()).
Proof.
  intros Hrest.
  change (poll (S fuel) ps l)
    with ((collect moving ps ≫= fun flags =>
           if existsb id flags then sleep;; poll fuel ps else mret ()) l).
  rewrite (bind_ret _ _ _ _ _ (collect_moving ps l)).
  assert (existsb id ((fun p => m_moving (motor_of l p)) <$> ps) = false) as ->;
    [|done].
  induction ps as [|p ps IH]; [done|]. simpl.
  rewrite (Hrest p) by apply list_elem_of_here. simpl.
  apply IH. intros q Hq. apply Hrest. by apply list_elem_of_further.
Qed.

Lemma lab_olog_log (ps : list string) (l : lab) :
  olog_log ps l
  = (mkLab (motors l) (replies l) (logbook l ++ [ps]) (journal l), Ret ()).
Proof. reflexivity. Qed.

Lemma device_ret {Env A} (m : St Env A) (σ : Scan * Env) e a :
  m σ.2 = (e, Ret a) -> device m σ = ((σ.1, e), Ret a).
Proof. unfold device. by intros ->. Qed.

(** C4. In the ideal laboratory, for a scan with one path per
    positioner: [DScan.preScan] returns, having captured the current
    position of every positioner and replaced every path by the same path
    with each point [r] moved to [r + p0] for the captured position [p0]
    of its positioner; [DScan.postScan], whatever happened to the motors
    in between, asks each positioner to move back to its captured
    position with [wait=True], in order, and returns with every
    positioner at its captured position and at rest. *)
Theorem C4_differential_scan (s : Scan) (l : lab) :
  length (paths s) = length (positioners s) ->
  exists s1 l1,
    DScan_preScan (s, l) = ((s1, l1), Ret ()) /\
    _start_positions s1
    = Some ((fun p => m_position (motor_of l p)) <$> positioners s) /\
    positioners s1 = positioners s /\
    length (paths s1) = length (paths s) /\
    (forall i path p,
       paths s !! i = Some path -> positioners s !! i = Some p ->
       paths s1 !! i
       = Some ((fun r => (r + m_position (motor_of l p))%float) <$> path)) /\
    forall (l2 : lab) (fuel : nat),
      exists l3,
        DScan_postScan (S fuel) (s1, l2) = ((s1, l3), Ret ()) /\
        journal l3
        = journal l2
            ++ ((fun p => (p, m_position (motor_of l p), true)) <$> positioners s) /\
        forall p, p ∈ positioners s ->
          position p l3 = (l3, Ret (m_position (motor_of l p))) /\
          moving p l3 = (l3, Ret false).
Proof.
  intros Hlen.
  set (p0 := fun p => m_position (motor_of l p)).
  set (s1 := set_paths
               (zip_with (fun path start => (fun r => (r + start)%float) <$> path)
                  (paths s) (p0 <$> positioners s))
               (set_start_positions (p0 <$> positioners s) s)).
  exists s1, (mkLab (motors l) (replies l) (logbook l ++ [positioners s]) (journal l)).
  split_and!.
  - unfold DScan_preScan.
    rewrite (bind_ret self _ (s, l) (s, l) s eq_refl).
    rewrite (bind_ret _ _ _ _ _
               (device_ret _ (s, l) _ _ (collect_position (positioners s) l))).
    reflexivity.
  - done.
  - done.
  - subst s1. unfold paths. simpl. rewrite length_zip_with, length_fmap.
    unfold paths, positioners in *. lia.
  - intros i path p Hpath Hp. subst s1. unfold paths. simpl.
    rewrite lookup_zip_with. unfold paths in Hpath. rewrite Hpath. simpl.
    rewrite list_lookup_fmap, Hp. done.
  - intros l2 fuel.
    destruct (moves_back p0 (positioners s) l2) as (l3 & Hrun & Hj & Hm).
    exists l3. split_and!.
    + unfold DScan_postScan.
      rewrite (bind_ret pass _ (s1, l2) (s1, l2) () eq_refl).
      rewrite (bind_ret self _ (s1, l2) (s1, l2) s1 eq_refl).
      cbv beta.
      change (_start_positions s1) with (Some (p0 <$> positioners s)).
      change (positioners s1) with (positioners s). cbv beta iota.
      rewrite (bind_ret _ _ _ _ _ (device_ret _ (s1, l2) _ _ Hrun)).
      rewrite (bind_ret self _ (s1, l3) (s1, l3) s1 eq_refl). cbv beta.
      change (positioners s1) with (positioners s).
      apply (device_ret _ (s1, l3)). apply poll_at_rest. intros p Hp. by apply Hm.
    + done.
    + intros p Hp. destruct (Hm p) as [[Hpos Hmov] _]; [done|].
      by rewrite lab_position, lab_moving, Hpos, Hmov.
Qed.

(** ** The classes of the module leave the captured dataset alone *)

Section class_facts.
Context {Env : Type} `{!Devices Env}.

Lemma keeps_bind {A} (m : St (Scan * Env) A) (k : A -> St (Scan * Env) unit) :
  (forall σ, _last_data (m σ).1.1 = _last_data σ.1) ->
  (forall a, keeps_data (k a)) ->
  keeps_data (m ≫= k).
Proof.
  intros Hm Hk σ. unfold mbind, St_bind. specialize (Hm σ).
  destruct (m σ) as [σ' [a|x|]]; simpl in *; [|done|done].
  by rewrite Hk.
Qed.

Lemma keeps_pass : keeps_data (pass (Env := Env)).
Proof. by intros σ. Qed.

Lemma keeps_raise (x : exn) : keeps_data (raise (Σ := Scan * Env) x).
Proof. by intros σ. Qed.

Lemma keeps_device (m : St Env unit) : keeps_data (device m).
Proof. intros σ. by rewrite device_scan. Qed.

Lemma AScan_preScan_keeps : keeps_data (AScan_preScan (Env := Env)).
Proof.
  unfold AScan_preScan.
  apply keeps_bind; [done|]. intros _.
  apply keeps_bind; [done|]. intros s.
  apply keeps_device.
Qed.

Lemma DScan_preScan_keeps : keeps_data (DScan_preScan (Env := Env)).
Proof.
  unfold DScan_preScan.
  apply keeps_bind; [done|]. intros s.
  apply keeps_bind; [intros σ; by rewrite device_scan|]. intros starts.
  apply keeps_bind; [done|]. intros _.
  apply keeps_bind; [done|]. intros s'.
  apply keeps_bind; [done|]. intros _.
  apply AScan_preScan_keeps.
Qed.

Lemma DScan_postScan_keeps (fuel : nat) :
  keeps_data (DScan_postScan (Env := Env) fuel).
Proof.
  unfold DScan_postScan.
  apply keeps_bind; [done|]. intros _.
  apply keeps_bind; [done|]. intros s.
  destruct (_start_positions s) as [starts|]; [|apply keeps_raise].
  apply keeps_bind; [intros σ; by rewrite device_scan|]. intros _.
  apply keeps_bind; [done|]. intros s'.
  apply keeps_device.
Qed.

Lemma Scan_class_keeps : class_keeps_data (Scan_class (Env := Env)).
Proof. repeat split; apply keeps_pass. Qed.

Lemma AScan_class_keeps : class_keeps_data (AScan_class (Env := Env)).
Proof.
  repeat split; try apply keeps_pass. apply AScan_preScan_keeps.
Qed.

Lemma DScan_class_keeps (fuel : nat) :
  class_keeps_data (DScan_class (Env := Env) fuel).
Proof.
  repeat split; try apply keeps_pass.
  - apply DScan_preScan_keeps.
  - apply DScan_postScan_keeps.
Qed.

End class_facts.

(** ** Detectors and triggers *)

(** C8. The effective trigger and detector lists are layered: once a
    list has been set on the scan, the effective list is that list
    followed by the default list; while none is set (or [None] is set),
    it is the default list alone. *)
Theorem C8_layered_lists (s : Scan) (t dt : list Trigger)
    (d dd : list Detector) :
  triggers (set_triggers (Some t) s) = t ++ default_triggers s /\
  detectors (set_detectors (Some d) s) = d ++ default_detectors s /\
  triggers (set_triggers None s) = default_triggers s /\
  detectors (set_detectors None s) = default_detectors s /\
  triggers (set_default_triggers dt (set_triggers (Some t) s)) = t ++ dt /\
  detectors (set_default_detectors dd (set_detectors (Some d) s)) = d ++ dd /\
  triggers (set_default_triggers dt Scan_init) = dt /\
  detectors (set_default_detectors dd Scan_init) = dd.
Proof. by repeat split. Qed.

(** ** The lifecycle on the bench *)

(** C1, as stated, fails: in a differential scan whose engine fails and
    whose motor then refuses to move back, [preScan] completed and
    [postScan] was called once, but the exception that reaches the caller
    is the one of the move, not the engine's. *)
Lemma C1_original_error_replaced :
  Returned PreScan PyNone
  ∈ trace (exec (DScan_class 1) one_motor_scan jammed_bench).1 /\
  Raised
    (StartRun 1 (scan_args
       (configure (DScan_class 1) (one_motor_scan, jammed_bench)).1.1))
    (Failure "engine")
  ∈ trace (exec (DScan_class 1) one_motor_scan jammed_bench).1 /\
  count is_postScan (trace (exec (DScan_class 1) one_motor_scan jammed_bench).1)
  = 1%nat /\
  (exec (DScan_class 1) one_motor_scan jammed_bench).2 = Raise (Failure "move").
Proof.
  split_and!.
  - vm_compute.
    repeat first [apply list_elem_of_here | apply list_elem_of_further].
  - vm_compute.
    repeat first [apply list_elem_of_here | apply list_elem_of_further].
  - by vm_compute.
  - by vm_compute.
Qed.

(** C7, as stated, fails on the same scan: the engine's call raised and
    the dataset is unchanged, but the error that propagates after the
    teardown is the one the teardown raised. *)
Lemma C7_engine_error_replaced :
  Raised
    (StartRun 1 (scan_args
       (configure (DScan_class 1) (one_motor_scan, jammed_bench)).1.1))
    (Failure "engine")
  ∈ trace (exec (DScan_class 1) one_motor_scan jammed_bench).1 /\
  data (scan (exec (DScan_class 1) one_motor_scan jammed_bench).1)
  = data one_motor_scan /\
  Raised PostScan (Failure "move")
  ∈ trace (exec (DScan_class 1) one_motor_scan jammed_bench).1 /\
  (exec (DScan_class 1) one_motor_scan jammed_bench).2 = Raise (Failure "move").
Proof.
  split_and!.
  - vm_compute.
    repeat first [apply list_elem_of_here | apply list_elem_of_further].
  - by vm_compute.
  - vm_compute.
    repeat first [apply list_elem_of_here | apply list_elem_of_further].
  - by vm_compute.
Qed.

(** A differential scan whose engine fails: [postScan] has run once, the
    motor is back at 5, and the engine's exception reaches the caller. *)
Lemma C1_postScan_once_witness :
  count is_postScan (trace (exec (DScan_class 1) one_motor_scan engine_down).1)
  = 1%nat /\
  (exec (DScan_class 1) one_motor_scan engine_down).2
  = Raise (Failure "engine").
Proof.
  destruct (C1_postScan_once (DScan_class 1) one_motor_scan engine_down)
    as (Hcount & Hraise & _).
  - by vm_compute.
  - vm_compute. repeat first [apply list_elem_of_here | apply list_elem_of_further].
  - split; [exact Hcount|].
    apply (Hraise
             (StartRun 1 (scan_args
                (configure (DScan_class 1) (one_motor_scan, engine_down)).1.1))
             (Failure "engine")).
    + done.
    + vm_compute.
      repeat first [apply list_elem_of_here | apply list_elem_of_further].
    + vm_compute.
      repeat first [apply list_elem_of_here | apply list_elem_of_further].
Defined.

Lemma C10_no_postScan_without_enter_witness :
  count is_postScan (trace (exec Unreadable_class one_motor_scan engine_up).1)
  = 0%nat /\
  (exec Unreadable_class one_motor_scan engine_up).2
  = Raise (Failure "position") /\
  count is_postScan (trace (exec Invalid_class one_motor_scan engine_up).1)
  = 0%nat /\
  count is_preScan (trace (exec Invalid_class one_motor_scan engine_up).1)
  = 0%nat.
Proof.
  destruct (C10_no_postScan_without_enter Unreadable_class one_motor_scan
              engine_up (Failure "position")) as (H1 & H2 & _).
  { left. vm_compute.
    repeat first [apply list_elem_of_here | apply list_elem_of_further]. }
  assert (Raised CheckPaths ValueError
          ∈ trace (exec Invalid_class one_motor_scan engine_up).1) as Hin.
  { vm_compute.
    repeat first [apply list_elem_of_here | apply list_elem_of_further]. }
  destruct (C10_no_postScan_without_enter Invalid_class one_motor_scan
              engine_up ValueError (or_intror Hin)) as (H3 & _ & H4).
  exact (conj H1 (conj H2 (conj H3 (H4 Hin)))).
Defined.

Lemma C7_data_after_run_witness :
  data (scan (exec (DScan_class 1) one_motor_scan engine_down).1)
  = data one_motor_scan /\
  (exec (DScan_class 1) one_motor_scan engine_down).2
  = Raise (Failure "engine").
Proof.
  destruct (C7_data_after_run (DScan_class 1) one_motor_scan engine_down
              (DScan_class_keeps 1)) as [Hfail _].
  destruct (Hfail 1
              (scan_args
                 (configure (DScan_class 1) (one_motor_scan, engine_down)).1.1)
              (Failure "engine")) as (Hdata & _ & _ & Hout & _).
  - vm_compute.
    repeat first [apply list_elem_of_here | apply list_elem_of_further].
  - split; [exact Hdata|]. apply Hout. vm_compute.
    repeat first [apply list_elem_of_here | apply list_elem_of_further].
Defined.

(** A run that returns keeps the dataset the engine answered with. *)
Example data_of_a_good_run :
  (exec (DScan_class 1) one_motor_scan engine_up).2 = Ret () /\
  data (scan (exec (DScan_class 1) one_motor_scan engine_up).1) = Some 7%nat.
Proof. by vm_compute. Qed.

(** C6, as stated, fails: the request of a scan with the path
    [[0, 1, 2]] for its positioner has four entries, none of them the
    trajectories. *)
Lemma C6_request_has_no_trajectories :
  paths one_motor_scan = [[0; 1; 2]%float] /\
  Called (StartRun 1 (scan_args one_motor_scan))
  ∈ trace (exec Scan_class one_motor_scan engine_up).1 /\
  scan_args one_motor_scan !! "trajectories" = None /\
  scan_args one_motor_scan
  = list_to_map [("detectors", PyList []); ("triggers", PyList []);
                 ("positioners", PyList ["m"]); ("settle_time", PyNone)].
Proof.
  split_and!.
  - done.
  - vm_compute.
    repeat first [apply list_elem_of_here | apply list_elem_of_further].
  - done.
  - by vm_compute.
Qed.

Lemma C6_scan_request_witness :
  scan_args one_motor_scan !! "trajectories" = None /\
  forall pp,
    pp ∈ zip (positioners
                (configure Scan_class (one_motor_scan, engine_up)).1.1)
             (paths (configure Scan_class (one_motor_scan, engine_up)).1.1) ->
    Returned (SetTrajectory pp.1 pp.2) PyNone
    ∈ trace (exec Scan_class one_motor_scan engine_up).1.
Proof.
  destruct (C6_scan_request Scan_class one_motor_scan engine_up 1
              (scan_args one_motor_scan))
    as (_ & _ & _ & _ & _ & _ & _ & Hnone & Hsent).
  - vm_compute.
    repeat first [apply list_elem_of_here | apply list_elem_of_further].
  - exact (conj Hnone Hsent).
Defined.

(** C5 on the bench: two runs of a new scan, both successful, both with
    run id 1; [run_id] answers 0 afterwards. *)
Example two_runs_one_id :
  (runs Scan_class 2 (mkWorld Scan_init (bench "m" 0%float [Ret 1%nat; Ret 2%nat]) [])).2
  = Ret () /\
  run_ids (trace (runs Scan_class 2
            (mkWorld Scan_init (bench "m" 0%float [Ret 1%nat; Ret 2%nat]) [])).1)
  = [1; 1] /\
  run_id (scan (runs Scan_class 2
            (mkWorld Scan_init (bench "m" 0%float [Ret 1%nat; Ret 2%nat]) [])).1)
  = 0.
Proof. by vm_compute. Qed.

Lemma C4_differential_scan_witness :
  exists s1 l1,
    DScan_preScan (one_motor_scan, engine_up) = ((s1, l1), Ret ()) /\
    _start_positions s1
    = Some ((fun p => m_position (motor_of engine_up p))
              <$> positioners one_motor_scan) /\
    positioners s1 = positioners one_motor_scan /\
    length (paths s1) = length (paths one_motor_scan) /\
    (forall i path p,
       paths one_motor_scan !! i = Some path ->
       positioners one_motor_scan !! i = Some p ->
       paths s1 !! i
       = Some ((fun r => (r + m_position (motor_of engine_up p))%float)
                 <$> path)) /\
    forall (l2 : lab) (fuel : nat),
      exists l3,
        DScan_postScan (S fuel) (s1, l2) = ((s1, l3), Ret ()) /\
        journal l3
        = journal l2
            ++ ((fun p => (p, m_position (motor_of engine_up p), true))
                  <$> positioners one_motor_scan) /\
        forall p, p ∈ positioners one_motor_scan ->
          position p l3 = (l3, Ret (m_position (motor_of engine_up p))) /\
          moving p l3 = (l3, Ret false).
Proof.
  apply (C4_differential_scan one_motor_scan engine_up). reflexivity.
Defined.

(** A whole differential scan on the bench: the path [0, 1, 2] is run as
    [5, 6, 7], the engine leaves the motor at 7, and [postScan] brings it
    back to 5 with one blocking move. *)
Example differential_round_trip :
  let r := exec (DScan_class 1) one_motor_scan engine_up in
  r.2 = Ret () /\
  paths (scan r.1) = [[5; 6; 7]%float] /\
  m_trajectory (motor_of (env r.1) "m") = [5; 6; 7]%float /\
  journal (env r.1) = [("m", 5%float, true)] /\
  m_position (motor_of (env r.1) "m") = 5%float /\
  m_position
    (motor_of (lab_start_run 1 (scan_args (scan r.1))
                 (with_motor "m" (fun m => mkMotor (m_position m) (m_moving m)
                    (m_target m) [5; 6; 7]%float) engine_up)).1 "m")
  = 7%float.
Proof. by vm_compute. Qed.

(** A differential scan started through [ScanND.__call__]: one
    dimension from 0 to 10 in 5 steps, around a motor at 5. *)
Example call_differential_scan :
  let r := ScanND_call (DScan_class 1) (One (One "m")) (One 0%float)
             (One 10%float) (One 5) (mkWorld Scan_init engine_up []) in
  r.2 = Ret () /\
  positioners (scan r.1) = ["m"] /\
  paths (scan r.1) = [[5; 7; 9; 11; 13; 15]%float] /\
  m_trajectory (motor_of (env r.1) "m") = [5; 7; 9; 11; 13; 15]%float /\
  m_position (motor_of (env r.1) "m") = 5%float /\
  data (scan r.1) = Some 7%nat.
Proof. by vm_compute. Qed.

(** The polling loop on a motor still in motion: it sleeps once; cut
    after one evaluation of its condition it has not ended. *)
Example poll_moving_motor :
  let l := mkLab {[ "m" := mkMotor 0%float true 3%float [] ]} [] [] [] in
  (poll 1 ["m"] l).2 = Diverge /\
  (poll 2 ["m"] l).2 = Ret () /\
  m_position (motor_of (poll 2 ["m"] l).1 "m") = 3%float.
Proof. by vm_compute. Qed.

(** ** More on the paths *)

Lemma prod_zero (a : list Z) : 0 ∈ a -> product a = 0.
Proof.
  unfold product. induction a as [|x a IH]; [by intros ?%elem_of_nil|].
  intros [<-|Hin]%elem_of_cons; simpl; [done|]. rewrite IH by done. lia.
Qed.

Lemma repeat_once {A} (a : list A) : np.repeat a 1 = Ret a.
Proof.
  unfold np.repeat.
  destruct (Z.ltb_spec (1 * Z.of_nat (length a)) 0) as [?|_]; [lia|].
  f_equal. change (Z.to_nat 1) with 1%nat.
  induction a as [|x a IH]; [done|].
  change (x :: flat_map (replicate 1) a = x :: a). by rewrite IH.
Qed.

Lemma tile_once {A} (a : list A) : np.tile a 1 = Ret a.
Proof.
  unfold np.tile. destruct (Z.ltb_spec (1 * Z.of_nat (length a)) 0); [lia|].
  simpl. by rewrite app_nil_r.
Qed.

Lemma calculatePath_single (start stop : float) (n : Z) :
  calculatePath start stop [n] 0 = calcLinearPath start stop n.
Proof.
  unfold calculatePath, getitem.
  change ([n] !! 0%nat) with (Some n).
  change (slice_to (Z.of_nat (length [n]) - Z.of_nat 0 - 1) (reverse [n]))
    with (@nil Z).
  change (slice_to (Z.of_nat 0) [n]) with (@nil Z).
  change (np.prod []) with 1.
  unfold mbind at 1. unfold outcome_bind at 1. cbv beta iota.
  destruct (calcLinearPath start stop n) as [lin| |]; [|done|done].
  unfold mbind at 1. unfold outcome_bind at 1. cbv beta iota.
  rewrite repeat_once. simpl. by rewrite tile_once.
Qed.

(** X5. For a scan of one dimension [calculatePath] is
    [calcLinearPath]: the same path, or the same exception. *)
Theorem calculatePath_one_dimension (start stop : float) (n : Z) :
  calculatePath start stop [n] 0 = calcLinearPath start stop n.
Proof. apply calculatePath_single. Qed.

(** With no negative count, and no product of counts that wraps, the
    path is computed, and has as many points as the product of all
    counts. *)
Lemma path_of_length (start stop : float) (npts : list Z) (dim : nat) :
  Forall (fun k => 0 <= k) npts ->
  product (Z.max 1 <$> npts) < 2 ^ 63 ->
  (dim < length npts)%nat ->
  calculatePath start stop npts dim = Ret (path_of start stop npts dim) /\
  length (path_of start stop npts dim) = Z.to_nat (product npts).
Proof.
  intros Hpos Hfit Hd.
  destruct (lookup_lt_is_Some_2 npts dim Hd) as [n Hn].
  assert (0 <= n) as Hnpos.
  { rewrite Forall_forall in Hpos. apply Hpos. by eapply list_elem_of_lookup_2. }
  destruct (linspace_length start stop n Hnpos) as (lin & Hlin & Hlen).
  pose proof (prod_nonneg (drop (S dim) npts) (Forall_drop _ _ _ Hpos)).
  pose proof (prod_nonneg (take dim npts) (Forall_take _ _ _ Hpos)).
  unfold path_of.
  rewrite (calculatePath_blocks _ _ _ _ n lin Hpos Hfit Hn Hlin).
  split; [done|].
  rewrite length_tile, length_repeat_each, Hlen, (prod_split npts dim n Hn).
  rewrite !Z2Nat.inj_mul by lia. lia.
Qed.


Lemma last_repeat_each {A} (k : nat) (l : list A) (x : A) :
  (0 < k)%nat -> last (flat_map (replicate k) (l ++ [x])) = Some x.
Proof.
  intros Hk. rewrite flat_map_app. simpl. rewrite app_nil_r.
  destruct k as [|k]; [lia|].
  rewrite replicate_S_end, !app_assoc. apply last_snoc.
Qed.

Lemma last_tile {A} (r : nat) (a : list A) (x : A) :
  (0 < r)%nat -> last a = Some x -> last (concat (replicate r a)) = Some x.
Proof.
  intros Hr Ha. destruct r as [|r]; [lia|].
  rewrite replicate_S_end, concat_app. simpl. rewrite app_nil_r.
  destruct (last_Some a x) as [[a' ->] _]; [done|].
  rewrite app_assoc. apply last_snoc.
Qed.

(** X6. In a grid with no empty dimension whose number of points fits
    in a 64-bit signed integer, the path of a dimension with at least
    two points ends exactly at [stop]. *)
Theorem path_ends_at_stop (start stop : float) (npts : list Z) (dim : nat)
    (n : Z) :
  Forall (fun k => 1 <= k) npts ->
  product npts < 2 ^ 63 ->
  npts !! dim = Some n ->
  2 <= n ->
  exists path,
    calculatePath start stop npts dim = Ret path /\
    last path = Some stop.
Proof.
  intros Hcounts Hfit Hd Hn.
  assert (Forall (fun k => 0 < k) npts) as Hpos.
  { eapply Forall_impl; [exact Hcounts|]. simpl. intros; lia. }
  pose proof (prod_pos (drop (S dim) npts) (Forall_drop _ _ _ Hpos)).
  pose proof (prod_pos (take dim npts) (Forall_take _ _ _ Hpos)).
  destruct (linspace_last start stop n Hn) as [l Hlin].
  eexists. split; [by eapply calculatePath_grid|].
  apply last_tile; [lia|]. apply last_repeat_each. lia.
Qed.

(** A step index and the same index reduced modulo a block of slower
    dimensions have the same digit at a faster dimension. *)
Lemma digit_mod (i R outer m inn : nat) :
  (0 < inn)%nat -> R = (outer * (m * inn))%nat ->
  (((i mod R) / inn) mod m = (i / inn) mod m)%nat.
Proof.
  intros Hinn ->.
  rewrite (Nat.div_mod_eq i (outer * (m * inn))) at 2.
  replace (outer * (m * inn) * (i / (outer * (m * inn)))
           + i mod (outer * (m * inn)))%nat
    with (i mod (outer * (m * inn))
          + (outer * (i / (outer * (m * inn))) * m) * inn)%nat by lia.
  rewrite Nat.div_add by lia.
  by rewrite Nat.Div0.mod_add.
Qed.

(** The digits of a step index determine it. *)
Lemma digits_injective (npts : list Z) (i j : nat) :
  Forall (fun k => 0 < k) npts ->
  (i < Z.to_nat (product npts))%nat ->
  (j < Z.to_nat (product npts))%nat ->
  (forall d n, npts !! d = Some n ->
     ((i / Z.to_nat (product (drop (S d) npts))) mod Z.to_nat n
      = (j / Z.to_nat (product (drop (S d) npts))) mod Z.to_nat n)%nat) ->
  i = j.
Proof.
  intros Hpos. revert i j.
  induction Hpos as [|n rest Hn Hrest IH]; intros i j Hi Hj Hdig.
  - change (Z.to_nat (product [])) with 1%nat in *. lia.
  - pose proof (prod_pos rest Hrest) as HR.
    change (product (n :: rest)) with (n * product rest) in *.
    rewrite Z2Nat.inj_mul in Hi, Hj by lia.
    set (R := Z.to_nat (product rest)) in *.
    assert (0 < R)%nat as HR' by lia.
    assert (i / R = j / R)%nat as Hq.
    { specialize (Hdig 0%nat n eq_refl).
      change (drop 1 (n :: rest)) with rest in Hdig. fold R in Hdig.
      rewrite !Nat.mod_small in Hdig; [done| |].
      - apply Nat.Div0.div_lt_upper_bound. lia.
      - apply Nat.Div0.div_lt_upper_bound. lia. }
    assert (i mod R = j mod R)%nat as Hr.
    { apply IH.
      - apply Nat.mod_upper_bound. lia.
      - apply Nat.mod_upper_bound. lia.
      - intros d m Hd. specialize (Hdig (S d) m Hd).
        change (drop (S (S d)) (n :: rest)) with (drop (S d) rest) in Hdig.
        assert (0 < m) as Hm.
        { rewrite Forall_forall in Hrest. apply Hrest.
          by eapply list_elem_of_lookup_2. }
        pose proof (prod_pos (drop (S d) rest) (Forall_drop _ _ _ Hrest)).
        pose proof (prod_pos (take d rest) (Forall_take _ _ _ Hrest)).
        assert (R = (Z.to_nat (product (take d rest))
                     * (Z.to_nat m * Z.to_nat (product (drop (S d) rest))))%nat)
          as HRsplit.
        { unfold R. rewrite (prod_split rest d m Hd).
          by rewrite !Z2Nat.inj_mul by lia. }
        assert (0 < Z.to_nat (product (drop (S d) rest)))%nat as Hinn by lia.
        by rewrite !(digit_mod _ R _ _ _ Hinn HRsplit). }
    rewrite (Nat.div_mod_eq i R), (Nat.div_mod_eq j R). congruence.
Qed.

(** X7. No grid point is visited twice: in a grid with no empty
    dimension, whose number of points fits in a 64-bit signed integer
    and whose linear paths have no repeated point, at any two different
    steps the path of at least one dimension is at a different point. *)
Theorem different_steps_differ (ends : nat -> float * float) (npts : list Z)
    (i j : nat) :
  Forall (fun k => 1 <= k) npts ->
  product npts < 2 ^ 63 ->
  (forall d n lin, npts !! d = Some n ->
     calcLinearPath (ends d).1 (ends d).2 n = Ret lin -> NoDup lin) ->
  (i < Z.to_nat (product npts))%nat ->
  (j < Z.to_nat (product npts))%nat ->
  i <> j ->
  exists d, (d < length npts)%nat /\
    path_of (ends d).1 (ends d).2 npts d !! i
    <> path_of (ends d).1 (ends d).2 npts d !! j.
Proof.
  intros Hcounts Hfit Hnodup Hi Hj Hij.
  assert (Forall (fun k => 0 < k) npts) as Hpos.
  { eapply Forall_impl; [exact Hcounts|]. simpl. intros; lia. }
  set (digit := fun (k d : nat) =>
         ((k / Z.to_nat (product (drop (S d) npts)))
            mod Z.to_nat (default 0%Z (npts !! d)))%nat).
  destruct (decide (Forall (fun d => digit i d = digit j d)
                      (seq 0 (length npts)))) as [Hall|Hsome].
  - destruct Hij. apply (digits_injective npts i j Hpos Hi Hj).
    intros d n Hd. rewrite Forall_forall in Hall.
    specialize (Hall d). unfold digit in Hall. rewrite Hd in Hall.
    apply Hall. apply elem_of_seq. apply lookup_lt_Some in Hd. lia.
  - apply not_Forall_Exists in Hsome; [|apply _].
    apply Exists_exists in Hsome as (d & Hd & Hdig).
    apply elem_of_seq in Hd as [_ Hd]. simpl in Hd.
    exists d. split; [done|].
    destruct (lookup_lt_is_Some_2 npts d Hd) as [n Hn].
    unfold digit, compose in Hdig. cbv beta in Hdig. rewrite Hn in Hdig. simpl in Hdig.
    assert (0 < n) as Hnpos.
    { rewrite Forall_forall in Hpos. apply Hpos.
      by eapply list_elem_of_lookup_2. }
    destruct (linspace_length (ends d).1 (ends d).2 n) as (lin & Hlin & Hlen);
      [lia|].
    unfold path_of.
    rewrite (calculatePath_grid _ _ _ _ n lin Hpos Hfit Hn Hlin).
    pose proof (prod_pos (drop (S d) npts) (Forall_drop _ _ _ Hpos)).
    pose proof (prod_pos (take d npts) (Forall_take _ _ _ Hpos)).
    assert (Z.to_nat (product npts)
            = (Z.to_nat (product (take d npts))
               * (length lin * Z.to_nat (product (drop (S d) npts))))%nat)
      as Htot.
    { rewrite Hlen, (prod_split npts d n Hn). by rewrite !Z2Nat.inj_mul by lia. }
    rewrite !lookup_grid by lia. rewrite Hlen.
    set (a := ((i / Z.to_nat (product (drop (S d) npts))) mod Z.to_nat n)%nat)
      in *.
    set (b := ((j / Z.to_nat (product (drop (S d) npts))) mod Z.to_nat n)%nat)
      in *.
    assert (a < length lin)%nat as Ha.
    { rewrite Hlen. apply Nat.mod_upper_bound. lia. }
    destruct (lookup_lt_is_Some_2 lin a Ha) as [x Hx].
    rewrite Hx. intros Hb. apply Hdig.
    by eapply NoDup_lookup; [eapply Hnodup| |].
Qed.

Section more_call_paths.
Context {P : Type}.
Implicit Types (acc r : list P * list (list float)).

Lemma call_group_exact (b e : float) (npts : list Z) (d : nat) (ps : list P)
    acc r :
  call_group b e npts d ps acc = Ret r ->
  r = (acc.1 ++ ps, acc.2 ++ replicate (length ps) (path_of b e npts d)).
Proof.
  destruct ps as [|p ps].
  - simpl. intros [= <-]. rewrite !app_nil_r. by destruct acc.
  - unfold path_of. destruct (calculatePath b e npts d) as [path| |] eqn:Hpath.
    + rewrite (call_group_ret b e npts d path (p :: ps) acc Hpath).
      by intros [= <-].
    + simpl. by rewrite Hpath.
    + simpl. by rewrite Hpath.
Qed.

Lemma call_dims_exact (positioners : list (arg P)) (npts : list Z)
    (dims : list (float * float * nat)) acc r :
  call_dims positioners npts dims acc = Ret r ->
  r.1 = acc.1 ++ groups_of positioners dims /\
  r.2 = acc.2 ++ paths_of positioners npts dims.
Proof.
  revert acc. induction dims as [|[[b e] d] dims IH]; intros acc; simpl.
  - intros [= <-]. unfold groups_of, paths_of. simpl. by rewrite !app_nil_r.
  - unfold getitem. destruct (positioners !! d) as [g|] eqn:Hg; [|done]. simpl.
    destruct (call_group b e npts d (ensure_iterator g) acc) as [acc'| |] eqn:Hgrp;
      [|done|done].
    apply call_group_exact in Hgrp. subst acc'. simpl.
    intros Hr. destruct (IH _ Hr) as [H1 H2]. simpl in *.
    unfold groups_of, paths_of in *. simpl. rewrite Hg. simpl.
    by rewrite H1, H2, <- !app_assoc.
Qed.


(** X1. The positioners and the paths [ScanND.__call__] computes,
    whenever it computes them: the positioners are those of the groups
    of the dimensions [zip(start, stop, range(dimension))] visits, in
    order, and every positioner of the group of a dimension has a copy of
    the path of that dimension, computed for the sample counts plus
    one (as 64-bit integers). *)
Theorem call_paths_groups (positioners : arg (arg P)) (start stop : arg float)
    (npts : arg Z) (pos : list P) (paths : list (list float)) :
  call_paths positioners start stop npts = Ret (pos, paths) ->
  pos = groups_of (ensure_iterator positioners)
          (zip (zip (ensure_iterator start) (ensure_iterator stop))
             (seq 0 (length (ensure_iterator npts)))) /\
  paths = paths_of (ensure_iterator positioners)
            ((fun n => np.int64 (n + 1)) <$> ensure_iterator npts)
            (zip (zip (ensure_iterator start) (ensure_iterator stop))
               (seq 0 (length (ensure_iterator npts)))).
Proof.
  unfold call_paths. intros Hret.
  destruct (call_dims_exact _ _ _ _ _ Hret) as [H1 H2].
  simpl in H1, H2. by subst.
Qed.

Lemma call_dims_returns (positioners : list (arg P)) (npts : list Z)
    (dims : list (float * float * nat)) acc :
  Forall (fun k => 0 <= k) npts ->
  product (Z.max 1 <$> npts) < 2 ^ 63 ->
  Forall (fun x => (x.2 < length npts)%nat) dims ->
  Forall (fun x => (x.2 < length positioners)%nat) dims ->
  exists r, call_dims positioners npts dims acc = Ret r.
Proof.
  intros Hpos Hfit Hdims Hps. revert acc.
  induction dims as [|[[b e] d] dims IH]; intros acc; simpl; [by eexists|].
  apply Forall_cons in Hdims as [Hd Hdims]. apply Forall_cons in Hps as [Hp Hps].
  simpl in *. unfold getitem.
  destruct (lookup_lt_is_Some_2 positioners d Hp) as [g ->]. simpl.
  destruct (path_of_length b e npts d Hpos Hfit Hd) as [Hpath _].
  rewrite (call_group_ret _ _ _ _ _ _ _ Hpath). simpl. by apply IH.
Qed.

Lemma paths_of_lengths (positioners : list (arg P)) (npts : list Z)
    (dims : list (float * float * nat)) :
  Forall (fun k => 0 <= k) npts ->
  product (Z.max 1 <$> npts) < 2 ^ 63 ->
  Forall (fun x => (x.2 < length npts)%nat) dims ->
  length (paths_of positioners npts dims) = length (groups_of positioners dims) /\
  Forall (fun path => length path = Z.to_nat (product npts))
    (paths_of positioners npts dims).
Proof.
  intros Hpos Hfit Hdims. unfold paths_of, groups_of.
  induction Hdims as [|[[b e] d] dims Hd _ [IH1 IH2]]; simpl; [done|].
  split.
  - rewrite !length_app, length_replicate. by f_equal.
  - apply Forall_app. split; [|done]. apply Forall_replicate.
    by apply path_of_length.
Qed.

Lemma zip_seq_bound {A} (l : list A) (a n : nat) :
  Forall (fun x => (x.2 < a + n)%nat) (zip l (seq a n)).
Proof.
  apply Forall_forall. intros [x d] Hin.
  apply elem_of_zip_r in Hin. simpl. apply elem_of_seq in Hin. lia.
Qed.

(** The groups visited when the sequences are of any lengths: those of
    the dimensions below the shortest length. *)
Lemma groups_of_zip {A} (positioners : list (arg P)) (l : list A) (n : nat) :
  (length l `min` n <= length positioners)%nat ->
  concat ((fun x => from_option ensure_iterator [] (positioners !! x.2))
            <$> zip l (seq 0 n))
  = concat (ensure_iterator <$> take (length l `min` n) positioners).
Proof.
  intros Hn. f_equal.
  apply list_eq. intros i. rewrite !list_lookup_fmap.
  rewrite lookup_take. destruct (decide (i < length l `min` n)%nat) as [Hi|Hi].
  - destruct (lookup_lt_is_Some_2 l i) as [a Ha]; [lia|].
    assert (zip l (seq 0 n) !! i = Some (a, i)) as ->.
    { apply lookup_zip_with_Some. exists a, i.
      split_and!; [done|done|apply lookup_seq_lt; lia]. }
    destruct (lookup_lt_is_Some_2 positioners i) as [g Hg]; [lia|].
    simpl. by rewrite Hg.
  - rewrite (lookup_ge_None_2 (zip l (seq 0 n))); [done|].
    rewrite length_zip, length_seq. lia.
Qed.

(** Sequences of any lengths, with no count below -1 and no product of
    point counts that wraps: the call computes the paths for as many
    dimensions as the shortest of them has. *)
Lemma call_paths_total (positioners : arg (arg P))
    (start stop : arg float) (npts : arg Z) :
  Forall (fun c => -1 <= c) (ensure_iterator npts) ->
  product (Z.max 1 <$> ((fun c => c + 1) <$> ensure_iterator npts)) < 2 ^ 63 ->
  ((length (ensure_iterator start) `min` length (ensure_iterator stop))
     `min` length (ensure_iterator npts)
   <= length (ensure_iterator positioners))%nat ->
  exists pos paths,
    call_paths positioners start stop npts = Ret (pos, paths) /\
    pos = concat (ensure_iterator <$>
            take ((length (ensure_iterator start)
                     `min` length (ensure_iterator stop))
                    `min` length (ensure_iterator npts))
              (ensure_iterator positioners)) /\
    length paths = length pos /\
    Forall (fun path => length path
              = Z.to_nat (product ((fun c => c + 1) <$> ensure_iterator npts)))
      paths /\
    (-1 ∈ ensure_iterator npts -> Forall (fun path => path = []) paths).
Proof.
  intros Hcounts Hfit Hps. unfold call_paths.
  rewrite (increment_exact _ Hcounts Hfit).
  set (counts := ensure_iterator npts) in *.
  set (N := (fun c => c + 1) <$> counts) in *.
  assert (Forall (fun k => 0 <= k) N) as Hpos.
  { subst N. apply Forall_fmap. eapply Forall_impl; [exact Hcounts|].
    simpl. intros; lia. }
  assert (length N = length counts) as HN by (subst N; by rewrite length_fmap).
  set (l := zip (ensure_iterator start) (ensure_iterator stop)) in *.
  assert (length l = (length (ensure_iterator start)
                        `min` length (ensure_iterator stop))%nat) as Hl
    by (subst l; by rewrite length_zip).
  rewrite <- Hl in *.
  set (dims := zip l (seq 0 (length counts))).
  assert (Forall (fun x => (x.2 < length N)%nat) dims) as Hdims.
  { rewrite HN. apply (zip_seq_bound l 0). }
  assert (Forall (fun x => (x.2 < length (ensure_iterator positioners))%nat) dims)
    as Hdims'.
  { apply Forall_forall. intros [x d] Hin. simpl.
    apply list_elem_of_lookup in Hin as [i Hi].
    apply lookup_zip_with_Some in Hi as (a & d' & [= -> ->] & Ha & Hd).
    apply lookup_seq in Hd as [-> Hd]. apply lookup_lt_Some in Ha. lia. }
  destruct (call_dims_returns (ensure_iterator positioners) N dims ([], [])
              Hpos Hfit Hdims Hdims') as [[pos paths] Hret].
  exists pos, paths. split; [done|].
  destruct (call_dims_exact _ _ _ _ _ Hret) as [H1 H2]. simpl in H1, H2.
  destruct (paths_of_lengths (ensure_iterator positioners) N dims Hpos Hfit
              Hdims) as [H3 H4].
  subst pos paths. split_and!.
  - unfold groups_of, dims. by apply groups_of_zip.
  - done.
  - done.
  - intros Hin. eapply Forall_impl; [exact H4|]. simpl. intros path Hlen.
    rewrite prod_zero in Hlen.
    + by apply nil_length_inv.
    + subst N. apply list_elem_of_fmap. by exists (-1).
Qed.


(** A dimension without its group of positioners: the loop stops there
    with an [IndexError]. *)
Lemma call_dims_missing (positioners : list (arg P)) (npts : list Z)
    (l : list (float * float)) (a n : nat) acc :
  Forall (fun k => 0 <= k) npts ->
  product (Z.max 1 <$> npts) < 2 ^ 63 ->
  (a + n <= length npts)%nat ->
  (a <= length positioners)%nat ->
  (length positioners < a + (length l `min` n))%nat ->
  call_dims positioners npts (zip l (seq a n)) acc = Raise IndexError.
Proof.
  intros Hpos Hfit. revert l a acc.
  induction n as [|n IH]; intros l a acc Hn Ha Hlt; [lia|].
  destruct l as [|[b e] l]; [simpl in Hlt; lia|]. simpl. unfold getitem.
  destruct (decide (a < length positioners)%nat) as [Hin|Hout].
  - destruct (lookup_lt_is_Some_2 positioners a Hin) as [g ->]. simpl.
    destruct (path_of_length b e npts a Hpos Hfit) as [Hpath _]; [lia|].
    rewrite (call_group_ret _ _ _ _ _ _ _ Hpath). simpl.
    apply IH; simpl in Hlt; lia.
  - by rewrite lookup_ge_None_2 by lia.
Qed.

(** X3. Starts, stops and counts of different lengths are not refused:
    [zip] stops at the shortest of them, and, given a group of
    positioners for each of these dimensions, no count below -1 and
    point counts whose product (leaving out the dimensions without
    points) fits in a 64-bit signed integer, the call computes paths for
    the positioners of exactly these groups; the length of every path is
    still the product of (count + 1) over all the counts, those without a
    start or a stop included. *)
Theorem call_paths_any_lengths (positioners : arg (arg P))
    (start stop : arg float) (npts : arg Z) :
  Forall (fun c => -1 <= c) (ensure_iterator npts) ->
  product (Z.max 1 <$> ((fun c => c + 1) <$> ensure_iterator npts)) < 2 ^ 63 ->
  ((length (ensure_iterator start) `min` length (ensure_iterator stop))
     `min` length (ensure_iterator npts)
   <= length (ensure_iterator positioners))%nat ->
  exists pos paths,
    call_paths positioners start stop npts = Ret (pos, paths) /\
    pos = concat (ensure_iterator <$>
            take ((length (ensure_iterator start)
                     `min` length (ensure_iterator stop))
                    `min` length (ensure_iterator npts))
              (ensure_iterator positioners)) /\
    length paths = length pos /\
    Forall (fun path => length path
              = Z.to_nat (product ((fun c => c + 1) <$> ensure_iterator npts)))
      paths.
Proof.
  intros Hcounts Hfit Hps.
  destruct (call_paths_total positioners start stop npts Hcounts Hfit Hps)
    as (pos & paths & Hret & Hpos & Hlen & Hpts & _).
  by exists pos, paths.
Qed.

(** X4. A sample count of -1 in any dimension is not refused either:
    its dimension has no point, and (for point counts of the other
    dimensions whose product fits in a 64-bit signed integer) the call
    computes an empty path for every positioner. *)
Theorem call_paths_without_points (positioners : arg (arg P))
    (start stop : arg float) (npts : arg Z) :
  Forall (fun c => -1 <= c) (ensure_iterator npts) ->
  product (Z.max 1 <$> ((fun c => c + 1) <$> ensure_iterator npts)) < 2 ^ 63 ->
  ((length (ensure_iterator start) `min` length (ensure_iterator stop))
     `min` length (ensure_iterator npts)
   <= length (ensure_iterator positioners))%nat ->
  -1 ∈ ensure_iterator npts ->
  exists pos paths,
    call_paths positioners start stop npts = Ret (pos, paths) /\
    length paths = length pos /\
    Forall (fun path => path = []) paths.
Proof.
  intros Hcounts Hfit Hps Hin.
  destruct (call_paths_total positioners start stop npts Hcounts Hfit Hps)
    as (pos & paths & Hret & _ & Hlen & _ & Hempty).
  exists pos, paths. auto.
Qed.

End more_call_paths.

Section call_facts.
Context {Env : Type} `{!Devices Env}.

(** X2. With fewer groups of positioners than dimensions to visit (no
    count below -1, and point counts whose product, leaving out the
    dimensions without points, fits in a 64-bit signed integer),
    [ScanND.__call__] raises [IndexError] at [positioners[d]]: the
    positioners and paths of the scan object are not assigned, [run] is
    not called and nothing is asked of the world. *)
Theorem ScanND_call_missing_group (cls : ScanClass)
    (positioners : arg (arg string)) (start stop : arg float) (npts : arg Z)
    (w : World) :
  Forall (fun c => -1 <= c) (ensure_iterator npts) ->
  product (Z.max 1 <$> ((fun c => c + 1) <$> ensure_iterator npts)) < 2 ^ 63 ->
  (length (ensure_iterator positioners)
   < (length (ensure_iterator start) `min` length (ensure_iterator stop))
       `min` length (ensure_iterator npts))%nat ->
  ScanND_call cls positioners start stop npts w = (w, Raise IndexError).
Proof.
  intros Hcounts Hfit Hlt. unfold ScanND_call, call_paths.
  rewrite (increment_exact _ Hcounts Hfit).
  rewrite call_dims_missing; [done| | | | |].
  - apply Forall_fmap. eapply Forall_impl; [exact Hcounts|]. simpl. intros; lia.
  - done.
  - rewrite length_fmap. lia.
  - lia.
  - rewrite length_zip. lia.
Qed.

End call_facts.

(** ** The block of [run], call by call *)

Section block_facts.
Context {Env : Type} `{!Devices Env}.
Implicit Types (w : @World Env) (cls : @ScanClass Env).

(** The loop that hands out the trajectories, call by call. *)
Lemma send_all_exact (l : list (Positioner * list float)) w :
  exists k e' o,
    for_each (send_trajectory (Env := Env)) l w
    = (mkWorld (scan w) e'
         (trace w ++ handed (take k l)
            ++ match l !! k with
               | Some pp => Called (SetTrajectory pp.1 pp.2)
                            :: ending (SetTrajectory pp.1 pp.2)
                                 (fun _ : unit => PyNone) o
               | None => []
               end), o) /\
    for_each (fun pp => set_trajectory pp.1 pp.2) l (env w) = (e', o) /\
    (o = Ret () -> k = length l) /\
    (o <> Ret () -> (k < length l)%nat).
Proof.
  revert w. induction l as [|pp l IH]; intros w.
  - exists 0%nat, (env w), (Ret ()). simpl. rewrite app_nil_r.
    split_and!; [by destruct w|done|done|done].
  - change (for_each send_trajectory (pp :: l) w)
      with ((send_trajectory pp ≫= fun _ => for_each send_trajectory l) w).
    change (for_each ?f (pp :: l) (env w))
      with ((f pp ≫= fun _ => for_each f l) (env w)).
    cbv beta.
    destruct (set_trajectory pp.1 pp.2 (env w)) as [e1 [[]|x|]] eqn:E1.
    + assert (device (set_trajectory pp.1 pp.2) (scan w, env w)
              = ((scan w, e1), Ret ())) as Ed by (by apply device_ret).
      rewrite (bind_ret (send_trajectory pp) _ _ _ _ (traced_ret _ _ _ _ _ _ _ Ed)).
      rewrite (bind_ret _ _ _ _ _ E1).
      destruct (IH (mkWorld (scan w) e1
                      (trace w ++ [Called (SetTrajectory pp.1 pp.2);
                                   Returned (SetTrajectory pp.1 pp.2) PyNone])))
        as (k & e' & o & Hrun & Henv & Hret & Hnot).
      exists (S k), e', o. simpl in *. rewrite Hrun, <- !app_assoc.
      split_and!; [done|done|intros; f_equal; auto|intros; apply Hnot in H; lia].
    + assert (device (set_trajectory pp.1 pp.2) (scan w, env w)
              = ((scan w, e1), Raise x)) as Ed.
      { unfold device. simpl. by rewrite E1. }
      rewrite (bind_raise (send_trajectory pp) _ _ _ _ (traced_raise _ _ _ _ _ _ _ Ed)).
      rewrite (bind_raise _ _ _ _ _ E1).
      exists 0%nat, e1, (Raise x). simpl.
      split_and!; [done|done|done|intros; lia].
    + assert (device (set_trajectory pp.1 pp.2) (scan w, env w)
              = ((scan w, e1), Diverge)) as Ed.
      { unfold device. simpl. by rewrite E1. }
      rewrite (bind_diverge (send_trajectory pp) _ _ _ (traced_diverge _ _ _ _ _ _ Ed)).
      rewrite (bind_diverge _ _ _ _ E1).
      exists 0%nat, e1, Diverge. simpl.
      split_and!; [done|done|done|intros; lia].
Qed.

(** Every execution of the block goes one of the four ways. *)
Lemma body_cases cls w : body_case cls w (run_body cls w).
Proof.
  unfold run_body, hook.
  destruct (setupDetectors cls (scan w, env w)) as [[s1 e1] [[]|x|]] eqn:Esd.
  2:{ rewrite (bind_raise _ _ _ _ _ (traced_raise _ _ _ _ _ _ _ Esd)).
      by apply (body_detectors_fail cls w s1 e1 (Raise x)). }
  2:{ rewrite (bind_diverge _ _ _ _ (traced_diverge _ _ _ _ _ _ Esd)).
      by apply (body_detectors_fail cls w s1 e1 Diverge). }
  rewrite (bind_ret _ _ _ _ _ (traced_ret _ _ _ _ _ _ _ Esd)).
  set (w1 := mkWorld s1 e1 _).
  destruct (setupTriggers cls (scan w1, env w1)) as [[s2 e2] [[]|x|]] eqn:Est.
  2:{ rewrite (bind_raise _ _ _ _ _ (traced_raise _ _ _ _ _ _ _ Est)).
      subst w1. simpl. rewrite <- app_assoc.
      by apply (body_triggers_fail cls w s1 e1 s2 e2 (Raise x)). }
  2:{ rewrite (bind_diverge _ _ _ _ (traced_diverge _ _ _ _ _ _ Est)).
      subst w1. simpl. rewrite <- app_assoc.
      by apply (body_triggers_fail cls w s1 e1 s2 e2 Diverge). }
  rewrite (bind_ret _ _ _ _ _ (traced_ret _ _ _ _ _ _ _ Est)).
  subst w1. simpl in Est. simpl trace. rewrite <- app_assoc. simpl app.
  fold set_up.
  set (w2 := mkWorld s2 e2 _).
  rewrite (bind_ret observe _ w2 w2 s2 eq_refl). cbv beta.
  destruct (send_all_exact (zip (positioners s2) (paths s2)) w2)
    as (k & e3 & o & Hrun & Henv & Hret & Hnot).
  subst w2. cbn [scan env trace] in Hrun, Henv.
  destruct o as [[]|x|].
  2:{ rewrite (bind_raise _ _ _ _ _ Hrun).
      destruct (lookup_lt_is_Some_2 (zip (positioners s2) (paths s2)) k)
        as [pp Hpp]; [by apply Hnot|].
      rewrite Hpp, <- app_assoc.
      by apply (body_trajectory_fails cls w s1 e1 s2 e2 k pp e3 (Raise x)). }
  2:{ rewrite (bind_diverge _ _ _ _ Hrun).
      destruct (lookup_lt_is_Some_2 (zip (positioners s2) (paths s2)) k)
        as [pp Hpp]; [by apply Hnot|].
      rewrite Hpp, <- app_assoc.
      by apply (body_trajectory_fails cls w s1 e1 s2 e2 k pp e3 Diverge). }
  rewrite (bind_ret _ _ _ _ _ Hrun).
  rewrite (Hret eq_refl), firstn_all, lookup_ge_None_2, app_nil_r by lia.
  set (w3 := mkWorld s2 e3 _).
  rewrite (bind_ret observe _ w3 w3 s2 eq_refl). cbv beta zeta.
  destruct (start_run (_run_id s2 + 1) (scan_args s2) e3) as [e4 o] eqn:Esr.
  pose proof (body_engine cls w s1 e1 s2 e2 e3 e4 o Esd Est Henv Esr) as Hcase.
  destruct o as [d|x|].
  - assert (device (start_run (_run_id s2 + 1) (scan_args s2)) (scan w3, env w3)
            = ((s2, e4), Ret d)) as Ed by (by apply device_ret).
    rewrite (bind_ret _ _ _ _ _ (traced_ret _ _ _ _ _ _ _ Ed)).
    subst w3. simpl in *. by rewrite <- !app_assoc.
  - assert (device (start_run (_run_id s2 + 1) (scan_args s2)) (scan w3, env w3)
            = ((s2, e4), Raise x)) as Ed.
    { unfold device. simpl. by rewrite Esr. }
    rewrite (bind_raise _ _ _ _ _ (traced_raise _ _ _ _ _ _ _ Ed)).
    subst w3. simpl in *. by rewrite <- !app_assoc.
  - assert (device (start_run (_run_id s2 + 1) (scan_args s2)) (scan w3, env w3)
            = ((s2, e4), Diverge)) as Ed.
    { unfold device. simpl. by rewrite Esr. }
    rewrite (bind_diverge _ _ _ _ (traced_diverge _ _ _ _ _ _ Ed)).
    subst w3. simpl in *. by rewrite <- !app_assoc.
Qed.


Lemma trajectories_app (a b : list event) :
  trajectories (a ++ b) = trajectories a ++ trajectories b.
Proof.
  induction a as [|[[]| |] a IH]; simpl; by rewrite ?IH.
Qed.

Lemma trajectories_handed (l : list (Positioner * list float)) :
  trajectories (handed l) = l.
Proof.
  induction l as [|[p path] l IH]; simpl; by rewrite ?IH.
Qed.

Lemma configure_ret cls (s s0 s1 s2 s3 : Scan) (e e0 e1 e2 e3 : Env) :
  checkPaths cls (s, e) = (s0, e0, Ret ()) ->
  preScan cls (s0, e0) = (s1, e1, Ret ()) ->
  setupDetectors cls (s1, e1) = (s2, e2, Ret ()) ->
  setupTriggers cls (s2, e2) = (s3, e3, Ret ()) ->
  configure cls (s, e) = (s3, e3, Ret ()).
Proof.
  intros Ecp Eps Esd Est. unfold configure, setup.
  rewrite (bind_ret _ _ _ _ _ Ecp), (bind_ret _ _ _ _ _ Eps).
  by rewrite (bind_ret _ _ _ _ _ Esd).
Qed.

(** X8. The calls of a [run] that returns, in order and in full:
    [checkPaths], [preScan], [setupDetectors], [setupTriggers], one
    [set_trajectory] per pair of [zip(positioners, paths)] in order (of
    the scan object as the hooks left it), the engine's [start_run] with
    the stored run id plus one, then [postScan]; each returned, and
    nothing else was called. *)
Theorem run_returns_in_order cls (s : Scan) (e : Env) :
  (exec cls s e).2 = Ret () ->
  exists d,
    let s3 := (configure cls (s, e)).1.1 in
    trace (exec cls s e).1
    = entered ++ set_up
        ++ handed (zip (positioners s3) (paths s3))
        ++ [Called (StartRun (_run_id s3 + 1) (scan_args s3));
            Returned (StartRun (_run_id s3 + 1) (scan_args s3)) (PyData d);
            Called PostScan; Returned PostScan PyNone].
Proof.
  unfold exec.
  destruct (run_cases cls (mkWorld s e []))
    as [s0 e0 o Ecp Ho|s0 e0 s1 e1 o Ecp Eps Ho|s0 e0 s1 e1 w3 Ecp Eps Eb
       |s0 e0 s1 e1 w3 rb s4 e4 ox Ecp Eps Eb Hrb Epo]; cbn [fst snd trace].
  - done.
  - done.
  - done.
  - intros Hret. destruct ox as [[]|x|]; [|done|done]. subst rb.
    simpl in Ecp. cbn [ending].
    match type of Eb with run_body _ ?w2 = _ =>
      pose proof (body_cases cls w2) as Hb
    end.
    rewrite Eb in Hb.
    inversion Hb as [s' e' o Esd Ho|s1' e1' s' e' o Esd Est Ho
                    |s1' e1' s2 e2 k pp e3 o Esd Est Hk Henv Ho
                    |s1' e1' s2 e2 e3 e5 o Esd Est Henv Esr]; subst;
      try done.
    destruct o as [d| |]; [|done|done].
    exists d. simpl in Esd.
    rewrite (configure_ret cls _ _ _ _ _ _ _ _ _ _ Ecp Eps Esd Est).
    cbn [fst snd trace ending]. unfold entered, set_up. simpl.
    by rewrite <- !app_assoc.
Qed.

Lemma handed_start_run (l : list (Positioner * list float)) i a :
  Called (StartRun i a) ∉ handed l.
Proof.
  induction l as [|pp l IH]; simpl; intros Hin; by trace_in.
Qed.

(** X9. In every [run], however it ends, the trajectories handed out
    are the first pairs of [zip(positioners, paths)] (of the scan object
    as the hooks left it), in order and once each: nothing is handed out
    beyond the shorter of the two lists; and if the engine was started,
    all the pairs had been served. *)
Theorem trajectories_follow_the_pairs cls (s : Scan) (e : Env) :
  let s3 := (configure cls (s, e)).1.1 in
  (exists k,
     trajectories (trace (exec cls s e).1)
     = take k (zip (positioners s3) (paths s3))) /\
  forall i a, Called (StartRun i a) ∈ trace (exec cls s e).1 ->
    trajectories (trace (exec cls s e).1) = zip (positioners s3) (paths s3).
Proof.
  assert (forall (t : list event) ox,
            trajectories
              (t ++ Called PostScan :: ending PostScan (fun _ : unit => PyNone) ox)
            = trajectories t) as Hpost.
  { intros t ox. rewrite trajectories_app.
    destruct ox as [[]| |]; simpl; by rewrite app_nil_r. }
  assert (forall (t : list event) ox i a,
            Called (StartRun i a)
            ∈ t ++ Called PostScan :: ending PostScan (fun _ : unit => PyNone) ox ->
            Called (StartRun i a) ∈ t) as Hstart.
  { intros t ox i a Hin. destruct ox as [[]| |]; simpl in Hin; by trace_in. }
  assert (forall w1 r,
            body_case cls w1 r -> trajectories (trace w1) = [] ->
            (forall i a, Called (StartRun i a) ∉ trace w1) ->
            let s2 := (setup cls (scan w1, env w1)).1.1 in
            (exists k, trajectories (trace r.1)
                       = take k (zip (positioners s2) (paths s2))) /\
            forall i a, Called (StartRun i a) ∈ trace r.1 ->
              trajectories (trace r.1) = zip (positioners s2) (paths s2))
    as Hbody.
  { intros w1 r Hb Hw1 Hno. unfold setup.
    destruct Hb as [s' e' o Esd Ho|s1' e1' s' e' o Esd Est Ho
                   |s1' e1' s2 e2 k pp e3 o Esd Est Hk Henv Ho
                   |s1' e1' s2 e2 e3 e5 o Esd Est Henv Esr];
      cbn [fst snd trace].
    - split; [exists 0%nat; rewrite trajectories_app, Hw1
             |intros i a Hin; apply elem_of_app in Hin as [Hin|Hin];
              [by apply Hno in Hin|]];
        destruct o as [[]| |]; simpl in *; by trace_in.
    - split; [exists 0%nat; rewrite trajectories_app, Hw1
             |intros i a Hin; apply elem_of_app in Hin as [Hin|Hin];
              [by apply Hno in Hin|]];
        destruct o as [[]| |]; simpl in *; by trace_in.
    - rewrite (bind_ret _ _ _ _ _ Esd), Est. cbn [fst snd]. split.
      + exists (S k). rewrite (take_S_r _ _ _ Hk).
        rewrite !trajectories_app, Hw1, trajectories_handed.
        destruct pp, o as [[]| |]; by simpl.
      + intros i a Hin. apply elem_of_app in Hin as [Hin|Hin];
          [by apply Hno in Hin|].
        apply elem_of_app in Hin as [Hin|Hin]; [unfold set_up in Hin; by trace_in|].
        apply elem_of_app in Hin as [Hin|Hin];
          [by apply handed_start_run in Hin|].
        destruct o as [[]| |]; simpl in Hin; by trace_in.
    - rewrite (bind_ret _ _ _ _ _ Esd), Est. cbn [fst snd].
      assert (trajectories
                (trace w1 ++ set_up
                   ++ handed (zip (positioners s2) (paths s2))
                   ++ Called (StartRun (_run_id s2 + 1) (scan_args s2))
                   :: ending (StartRun (_run_id s2 + 1) (scan_args s2)) PyData o)
              = zip (positioners s2) (paths s2)) as ->.
      { rewrite !trajectories_app, Hw1, trajectories_handed.
        destruct o; simpl; by rewrite app_nil_r. }
      split; [|done].
      exists (length (zip (positioners s2) (paths s2))).
      by rewrite firstn_all. }
  unfold exec.
  destruct (run_cases cls (mkWorld s e []))
    as [s0 e0 o Ecp Ho|s0 e0 s1 e1 o Ecp Eps Ho|s0 e0 s1 e1 w3 Ecp Eps Eb
       |s0 e0 s1 e1 w3 rb s4 e4 ox Ecp Eps Eb Hrb Epo]; cbn [fst snd trace].
  - split; [exists 0%nat|intros i a Hin];
      destruct o as [[]| |]; simpl in *; by trace_in.
  - split; [exists 0%nat|intros i a Hin];
      destruct o as [[]| |]; simpl in *; by trace_in.
  - match type of Eb with run_body _ ?w2 = _ =>
      pose proof (Hbody w2 _ (body_cases cls w2)) as Hb
    end.
    rewrite Eb in Hb. cbn [fst snd trace scan env] in Hb.
    unfold configure. simpl in Ecp.
    rewrite (bind_ret _ _ _ _ _ Ecp), (bind_ret _ _ _ _ _ Eps).
    apply Hb; [done|]. intros i a Hin. unfold entered in Hin. simpl in Hin.
    by trace_in.
  - match type of Eb with run_body _ ?w2 = _ =>
      pose proof (Hbody w2 _ (body_cases cls w2)) as Hb
    end.
    rewrite Eb in Hb. cbn [fst snd trace scan env] in Hb.
    unfold configure. simpl in Ecp.
    rewrite (bind_ret _ _ _ _ _ Ecp), (bind_ret _ _ _ _ _ Eps).
    rewrite Hpost.
    destruct Hb as [Hk Hall];
      [done|intros i a Hin; unfold entered in Hin; simpl in Hin; by trace_in|].
    split; [done|]. intros i a Hin%Hstart. by apply (Hall i a).
Qed.


Lemma pass_keeps_scan : keeps_scan (pass (Env := Env)).
Proof. by intros σ. Qed.

Lemma AScan_preScan_keeps_scan : keeps_scan (AScan_preScan (Env := Env)).
Proof.
  intros [s e]. unfold AScan_preScan.
  rewrite (bind_ret pass _ (s, e) (s, e) () eq_refl).
  rewrite (bind_ret self _ (s, e) (s, e) s eq_refl).
  apply device_scan.
Qed.

Lemma Scan_class_keeps_scan : class_keeps_scan (Scan_class (Env := Env)).
Proof. repeat split. Qed.

Lemma AScan_class_keeps_scan : class_keeps_scan (AScan_class (Env := Env)).
Proof.
  split_and!; try apply pass_keeps_scan. apply AScan_preScan_keeps_scan.
Qed.

(** X10. For a class whose hooks leave the scan object alone (as those
    of [Scan] and [AScan] do), [run] changes nothing of the scan object
    but the captured dataset: either the dataset has been replaced by one
    the engine returned, or the object is as it was and [run] did not
    return. *)
Theorem run_changes_only_the_data cls (s : Scan) (e : Env) :
  class_keeps_scan cls ->
  (exists d, scan (exec cls s e).1 = set_data (Some d) s) \/
  (scan (exec cls s e).1 = s /\ (exec cls s e).2 <> Ret ()).
Proof.
  intros (Kcp & Kpre & Kpost & Ksd & Kst).
  assert (forall w1 r,
            body_case cls w1 r ->
            (exists d, scan r.1 = set_data (Some d) (scan w1) /\ r.2 = Ret ()) \/
            (scan r.1 = scan w1 /\ r.2 <> Ret ())) as Hbody.
  { intros w1 r Hb.
    destruct Hb as [s' e' o Esd Ho|s1' e1' s' e' o Esd Est Ho
                   |s1' e1' s2 e2 k pp e3 o Esd Est Hk Henv Ho
                   |s1' e1' s2 e2 e3 e5 o Esd Est Henv Esr];
      cbn [fst snd scan].
    - right. split; [|done]. specialize (Ksd (scan w1, env w1)).
      by rewrite Esd in Ksd.
    - right. split; [|done]. specialize (Ksd (scan w1, env w1)).
      specialize (Kst (s1', e1')). rewrite Esd in Ksd. rewrite Est in Kst.
      simpl in *. congruence.
    - right. split; [|done]. specialize (Ksd (scan w1, env w1)).
      specialize (Kst (s1', e1')). rewrite Esd in Ksd. rewrite Est in Kst.
      simpl in *. congruence.
    - specialize (Ksd (scan w1, env w1)).
      specialize (Kst (s1', e1')). rewrite Esd in Ksd. rewrite Est in Kst.
      simpl in *. assert (s2 = scan w1) as -> by congruence.
      destruct o as [d| |]; [left; by exists d|by right|by right]. }
  unfold exec.
  destruct (run_cases cls (mkWorld s e []))
    as [s0 e0 o Ecp Ho|s0 e0 s1 e1 o Ecp Eps Ho|s0 e0 s1 e1 w3 Ecp Eps Eb
       |s0 e0 s1 e1 w3 rb s4 e4 ox Ecp Eps Eb Hrb Epo]; cbn [fst snd scan].
  - right. split; [|done]. specialize (Kcp (s, e)). simpl in Ecp.
    by rewrite Ecp in Kcp.
  - right. split; [|done]. specialize (Kcp (s, e)). simpl in Ecp.
    specialize (Kpre (s0, e0)). rewrite Ecp in Kcp. rewrite Eps in Kpre.
    simpl in *. congruence.
  - match type of Eb with run_body _ ?w2 = _ =>
      pose proof (Hbody w2 _ (body_cases cls w2)) as Hb
    end.
    rewrite Eb in Hb. cbn [fst snd scan] in Hb.
    destruct Hb as [(d & _ & ?)|[Hs _]]; [done|].
    right. split; [|done]. specialize (Kcp (s, e)). simpl in Ecp.
    specialize (Kpre (s0, e0)). rewrite Ecp in Kcp. rewrite Eps in Kpre.
    simpl in *. congruence.
  - match type of Eb with run_body _ ?w2 = _ =>
      pose proof (Hbody w2 _ (body_cases cls w2)) as Hb
    end.
    rewrite Eb in Hb. cbn [fst snd scan] in Hb.
    specialize (Kcp (s, e)). simpl in Ecp.
    specialize (Kpre (s0, e0)). rewrite Ecp in Kcp. rewrite Eps in Kpre.
    specialize (Kpost (scan w3, env w3)). rewrite Epo in Kpost.
    simpl in *.
    destruct Hb as [(d & Hs & Hr)|[Hs Hr]].
    + left. exists d. congruence.
    + right. split; [congruence|]. by destruct ox as [[]| |].
Qed.

(** X12. [AScan]: if the log book raises, the scan is not run. [run]
    raises the log book's exception out of [preScan]; no detector or
    trigger has been set up, no trajectory handed out, the engine not
    started, [postScan] not called, and the scan object is as it was. *)
Theorem AScan_log_failure (s : Scan) (e e' : Env) (x : exn) :
  olog_log (positioners s) e = (e', Raise x) ->
  exec AScan_class s e
  = (mkWorld s e' [Called CheckPaths; Returned CheckPaths PyNone;
                   Called PreScan; Raised PreScan x], Raise x).
Proof.
  intros Hlog. unfold exec, run, hook.
  rewrite (bind_ret _ _ _ _ _
             (traced_ret CheckPaths _ (checkPaths AScan_class)
                (mkWorld s e []) s e () eq_refl)).
  unfold with_, Scan_enter, hook. cbv zeta.
  assert (AScan_preScan (s, e) = ((s, e'), Raise x)) as Hpre.
  { unfold AScan_preScan.
    rewrite (bind_ret pass _ (s, e) (s, e) () eq_refl).
    rewrite (bind_ret self _ (s, e) (s, e) s eq_refl).
    unfold device. simpl. by rewrite Hlog. }
  match goal with |- (_ ≫= _) ?w = _ =>
    by rewrite (bind_raise _ _ _ _ _
                  (traced_raise PreScan _ (preScan AScan_class) w s e' x Hpre))
  end.
Qed.

(** X13. [DScan]: if the log book raises, [run] raises its exception
    out of [preScan] with nothing else called, [postScan] included, but
    the scan object has changed: the start positions are stored and the
    paths are already moved by them. *)
Theorem DScan_log_failure (fuel : nat) (s : Scan) (e e1 e2 : Env)
    (starts : list float) (x : exn) :
  collect position (positioners s) e = (e1, Ret starts) ->
  olog_log (positioners s) e1 = (e2, Raise x) ->
  exec (DScan_class fuel) s e
  = (mkWorld
       (set_paths
          (zip_with (fun path start => (fun r => (r + start)%float) <$> path)
             (paths s) starts)
          (set_start_positions starts s))
       e2
       [Called CheckPaths; Returned CheckPaths PyNone;
        Called PreScan; Raised PreScan x], Raise x).
Proof.
  intros Hpos Hlog. unfold exec, run, hook.
  rewrite (bind_ret _ _ _ _ _
             (traced_ret CheckPaths _ (checkPaths (DScan_class fuel))
                (mkWorld s e []) s e () eq_refl)).
  unfold with_, Scan_enter, hook. cbv zeta.
  set (s1 := set_paths _ _).
  assert (DScan_preScan (s, e) = ((s1, e2), Raise x)) as Hpre.
  { unfold DScan_preScan.
    rewrite (bind_ret self _ (s, e) (s, e) s eq_refl).
    rewrite (bind_ret _ _ _ _ _ (device_ret _ (s, e) _ _ Hpos)).
    cbn [fst].
    set (s' := set_start_positions starts s).
    rewrite (bind_ret (assign (set_start_positions starts)) _ (s, e1)
               (s', e1) () eq_refl).
    rewrite (bind_ret self _ (s', e1) (s', e1) s' eq_refl). cbv beta.
    rewrite (bind_ret (assign _) _ (s', e1) (s1, e1) () eq_refl).
    unfold AScan_preScan.
    rewrite (bind_ret pass _ (s1, e1) (s1, e1) () eq_refl).
    rewrite (bind_ret self _ (s1, e1) (s1, e1) s1 eq_refl).
    unfold device. cbn [fst snd].
    change (positioners s1) with (positioners s).
    by rewrite Hlog. }
  match goal with |- (_ ≫= _) ?w = _ =>
    by rewrite (bind_raise _ _ _ _ _
                  (traced_raise PreScan _ (preScan (DScan_class fuel)) w s1 e2 x
                     Hpre))
  end.
Qed.

Lemma for_each_app {Σ A} (f : A -> St Σ unit) (l1 l2 : list A) σ σ1 :
  for_each f l1 σ = (σ1, Ret ()) ->
  for_each f (l1 ++ l2) σ = for_each f l2 σ1.
Proof.
  revert σ. induction l1 as [|a l1 IH]; intros σ; simpl.
  - by intros [= ->].
  - change (for_each f (a :: l1) σ) with ((f a ≫= fun _ => for_each f l1) σ).
    change (for_each f (a :: l1 ++ l2) σ)
      with ((f a ≫= fun _ => for_each f (l1 ++ l2)) σ).
    destruct (f a σ) as [σ' [[]|x|]] eqn:E.
    + rewrite !(bind_ret _ _ _ _ _ E). apply IH.
    + by rewrite (bind_raise _ _ _ _ _ E).
    + by rewrite (bind_diverge _ _ _ _ E).
Qed.

(** X14. [DScan.postScan] stops at the first move that raises: the
    positioners before it have been moved back, those after it are not
    asked to move, the loop that waits for the motors is not entered,
    and the exception is raised. *)
Theorem DScan_postScan_stops_at_a_failed_move (fuel : nat) (s : Scan)
    (e e1 e2 : Env) (starts : list float)
    (moved rest : list (Positioner * float)) (p : Positioner) (t : float)
    (x : exn) :
  _start_positions s = Some starts ->
  zip (positioners s) starts = moved ++ (p, t) :: rest ->
  for_each (fun ps => move ps.1 ps.2 true) moved e = (e1, Ret ()) ->
  move p t true e1 = (e2, Raise x) ->
  DScan_postScan fuel (s, e) = ((s, e2), Raise x).
Proof.
  intros Hstarts Hzip Hmoved Hfail. unfold DScan_postScan.
  rewrite (bind_ret pass _ (s, e) (s, e) () eq_refl).
  rewrite (bind_ret self _ (s, e) (s, e) s eq_refl). cbv beta.
  rewrite Hstarts, Hzip.
  assert (for_each (fun ps : Positioner * float => move ps.1 ps.2 true)
            (moved ++ (p, t) :: rest) e = (e2, Raise x)) as Hrun.
  { rewrite (for_each_app _ _ _ _ _ Hmoved).
    change (for_each ?f ((p, t) :: rest) e1)
      with ((f (p, t) ≫= fun _ => for_each f rest) e1).
    by rewrite (bind_raise _ _ _ _ _ Hfail). }
  apply bind_raise. unfold device. cbn [fst snd]. by rewrite Hrun.
Qed.

End block_facts.

(** ** The whole differential scan in the ideal laboratory *)

Lemma lab_set_trajectory (p : string) (path : list float) (l : lab) :
  set_trajectory p path l
  = (with_motor p (fun m =>
       mkMotor (m_position m) (m_moving m) (m_target m) path) l, Ret ()).
Proof. reflexivity. Qed.

Lemma lab_trajectories (l : list (Positioner * list float)) (e : lab) :
  exists e',
    for_each (fun pp => set_trajectory pp.1 pp.2) l e = (e', Ret ()) /\
    replies e' = replies e /\ journal e' = journal e.
Proof.
  revert e. induction l as [|pp l IH]; intros e; [by exists e|].
  change (for_each ?f (pp :: l) e) with ((f pp ≫= fun _ => for_each f l) e).
  cbv beta.
  rewrite (bind_ret _ _ _ _ _ (lab_set_trajectory pp.1 pp.2 e)).
  destruct (IH (with_motor pp.1 (fun m =>
                  mkMotor (m_position m) (m_moving m) (m_target m) pp.2) e))
    as (e' & Hrun & Hr & Hj).
  by exists e'.
Qed.

Lemma lab_engine (i : Z) (a : gmap string pyval) (e : lab) :
  exists e',
    start_run i a e
    = (e', match replies e with [] => Ret 0%nat | r :: _ => r end) /\
    journal e' = journal e /\ replies e' = tail (replies e).
Proof.
  change (start_run i a e) with (lab_start_run i a e). unfold lab_start_run.
  set (ps := match a !! "positioners" with Some (PyList ps) => ps | _ => [] end).
  assert (forall e0, replies (foldl (fun l p => with_motor p follow l) e0 ps)
                     = replies e0 /\
                     journal (foldl (fun l p => with_motor p follow l) e0 ps)
                     = journal e0) as Hfold.
  { induction ps as [|p ps IH]; intros e0; [done|]. simpl.
    destruct (IH (with_motor p follow e0)) as [-> ->]. done. }
  destruct (Hfold e) as [Hr Hj]. rewrite Hr.
  destruct (replies e) as [|r rs]; eexists; (split; [reflexivity|done]).
Qed.

Lemma DScan_preScan_lab (s : Scan) (l : lab) :
  DScan_preScan (s, l)
  = ((set_paths
        (shifted (paths s) ((fun p => m_position (motor_of l p)) <$> positioners s))
        (set_start_positions
           ((fun p => m_position (motor_of l p)) <$> positioners s) s),
      mkLab (motors l) (replies l) (logbook l ++ [positioners s]) (journal l)),
     Ret ()).
Proof.
  unfold DScan_preScan.
  rewrite (bind_ret self _ (s, l) (s, l) s eq_refl).
  rewrite (bind_ret _ _ _ _ _
             (device_ret _ (s, l) _ _ (collect_position (positioners s) l))).
  reflexivity.
Qed.

Lemma moves_keep_replies (pts : list (string * float)) (l : lab) :
  replies (for_each (fun pt : string * float => move pt.1 pt.2 true) pts l).1
  = replies l.
Proof.
  revert l. induction pts as [|pt pts IH]; intros l; [done|].
  change (for_each ?g (pt :: pts) l)
    with ((move pt.1 pt.2 true ≫= fun _ => for_each g pts) l).
  rewrite (bind_ret _ _ _ _ _ (lab_move_blocking pt.1 pt.2 l)).
  by rewrite IH.
Qed.

Lemma DScan_postScan_lab (fuel : nat) (f : string -> float) (s : Scan) (l : lab) :
  _start_positions s = Some (f <$> positioners s) ->
  exists l',
    DScan_postScan (S fuel) (s, l) = ((s, l'), Ret ()) /\
    journal l' = journal l ++ ((fun p => (p, f p, true)) <$> positioners s) /\
    replies l' = replies l /\
    forall p, p ∈ positioners s ->
      m_position (motor_of l' p) = f p /\ m_moving (motor_of l' p) = false.
Proof.
  intros Hstarts.
  destruct (moves_back f (positioners s) l) as (l' & Hrun & Hj & Hm).
  pose proof (moves_keep_replies (zip (positioners s) (f <$> positioners s)) l)
    as Hr.
  rewrite Hrun in Hr.
  exists l'. split_and!; [| |done|].
  - unfold DScan_postScan.
    rewrite (bind_ret pass _ (s, l) (s, l) () eq_refl).
    rewrite (bind_ret self _ (s, l) (s, l) s eq_refl).
    cbv beta. rewrite Hstarts.
    rewrite (bind_ret _ _ _ _ _ (device_ret _ (s, l) _ _ Hrun)).
    rewrite (bind_ret self _ (s, l') (s, l') s eq_refl). cbv beta.
    apply (device_ret _ (s, l')). apply poll_at_rest. intros p Hp. by apply Hm.
  - done.
  - intros p Hp. by apply Hm.
Qed.

Lemma count_cons (f : event -> bool) (ev : event) (t : list event) :
  count f (ev :: t) = ((if f ev then 1 else 0) + count f t)%nat.
Proof. unfold count. simpl. by destruct (f ev). Qed.

Lemma count_postScan_handed (l : list (Positioner * list float)) :
  count is_postScan (handed l) = 0%nat.
Proof.
  induction l as [|pp l IH]; [done|]. simpl. by rewrite !count_cons.
Qed.

(** A whole run of a differential scan in the ideal laboratory. *)
Lemma differential_run (fuel : nat) (s : Scan) (l : lab) :
  head (replies l) <> Some Diverge ->
  exists w',
    exec (DScan_class (S fuel)) s l
    = (w', match head (replies l) with
           | Some (Raise x) => Raise x
           | _ => Ret ()
           end) /\
    positioners (scan w') = positioners s /\
    paths (scan w')
    = shifted (paths s) ((fun p => m_position (motor_of l p)) <$> positioners s) /\
    trajectories (trace w') = zip (positioners s) (paths (scan w')) /\
    count is_postScan (trace w') = 1%nat /\
    journal (env w')
    = journal l
        ++ ((fun p => (p, m_position (motor_of l p), true)) <$> positioners s) /\
    replies (env w') = tail (replies l) /\
    forall p, p ∈ positioners s ->
      m_position (motor_of (env w') p) = m_position (motor_of l p) /\
      m_moving (motor_of (env w') p) = false.
Proof.
  intros Hreply.
  set (p0 := fun p => m_position (motor_of l p)).
  set (cls := DScan_class (S fuel)).
  pose proof (DScan_preScan_lab s l) as Hpre. fold p0 in Hpre.
  set (s1 := set_paths _ _) in Hpre. set (l1 := mkLab _ _ _ _) in Hpre.
  destruct (lab_trajectories (zip (positioners s1) (paths s1)) l1)
    as (l2 & Hsend & Hr2 & Hj2).
  destruct (lab_engine (_run_id s1 + 1) (scan_args s1) l2)
    as (l3 & Heng & Hj3 & Hr3).
  rewrite Hr2 in Heng. change (replies l1) with (replies l) in Heng.
  set (reply := match replies l with [] => Ret 0%nat | r :: _ => r end) in *.
  assert (reply <> Diverge) as Hreply'.
  { subst reply. destruct (replies l) as [|[]]; simpl in *; congruence. }
  assert (match head (replies l) with
          | Some (Raise x) => Raise x
          | _ => Ret ()
          end
          = match reply with
            | Ret _ => Ret ()
            | Raise x => Raise x
            | Diverge => Diverge
            end :> outcome unit) as ->.
  { subst reply. by destruct (replies l) as [|[]]. }
  assert (forall t,
            run_body cls (mkWorld s1 l1 t)
            = (mkWorld (match reply with
                        | Ret d => set_data (Some d) s1
                        | _ => s1
                        end) l3
                 (t ++ set_up ++ handed (zip (positioners s1) (paths s1))
                    ++ Called (StartRun (_run_id s1 + 1) (scan_args s1))
                    :: ending (StartRun (_run_id s1 + 1) (scan_args s1)) PyData
                         reply),
               match reply with
               | Ret _ => Ret ()
               | Raise x => Raise x
               | Diverge => Diverge
               end)) as Hbody.
  { intros t. pose proof (body_cases cls (mkWorld s1 l1 t)) as Hb.
    assert (forall σ, setupDetectors cls σ = (σ, Ret ())) as Hsd by done.
    assert (forall σ, setupTriggers cls σ = (σ, Ret ())) as Hst by done.
    remember (run_body cls (mkWorld s1 l1 t)) as r eqn:Er. clear Er.
    destruct Hb as [s' e' o Esd Ho|s1' e1' s' e' o Esd Est Ho
                   |s1' e1' s2 e2 k pp e3 o Esd Est Hk Henv Ho
                   |s1' e1' s2 e2 e3 e5 o Esd Est Henv Esr];
      rewrite Hsd in Esd; cbn [scan env] in Esd.
    - congruence.
    - injection Esd as <- <-. rewrite Hst in Est. congruence.
    - injection Esd as <- <-. rewrite Hst in Est. injection Est as <- <-.
      rewrite Hsend in Henv. congruence.
    - injection Esd as <- <-. rewrite Hst in Est. injection Est as <- <-.
      rewrite Hsend in Henv. injection Henv as <-.
      rewrite Heng in Esr. by injection Esr as <- <-. }
  assert (forall s' : Scan,
            _start_positions s' = _start_positions s1 ->
            positioners s' = positioners s ->
            exists l',
              postScan cls (s', l3) = ((s', l'), Ret ()) /\
              journal l' = journal l ++ ((fun p => (p, p0 p, true)) <$> positioners s) /\
              replies l' = tail (replies l) /\
              forall p, p ∈ positioners s ->
                m_position (motor_of l' p) = p0 p /\
                m_moving (motor_of l' p) = false) as Hpost.
  { intros s' Hst Hps.
    destruct (DScan_postScan_lab fuel p0 s' l3) as (l' & Hrun & Hj & Hr & Hm).
    - by rewrite Hst, Hps.
    - exists l'. rewrite Hps in Hj, Hm. split_and!; [done| | |done].
      + rewrite Hj, Hj3, Hj2. done.
      + by rewrite Hr, Hr3, Hr2. }
  unfold exec.
  destruct (run_cases cls (mkWorld s l []))
    as [s0 e0 o Ecp Ho|s0 e0 s1' e1 o Ecp Eps Ho|s0 e0 s1' e1 w3 Ecp Eps Eb
       |s0 e0 s1' e1 w3 rb s4 e4 ox Ecp Eps Eb Hrb Epo];
    assert (checkPaths cls (s, l) = ((s, l), Ret ())) as Hcp by done;
    cbn [scan env] in Ecp; rewrite Hcp in Ecp.
  - congruence.
  - injection Ecp as <- <-.
    change (preScan cls (s, l)) with (DScan_preScan (s, l)) in Eps.
    rewrite Hpre in Eps. congruence.
  - injection Ecp as <- <-.
    change (preScan cls (s, l)) with (DScan_preScan (s, l)) in Eps.
    rewrite Hpre in Eps. injection Eps as <- <-.
    rewrite Hbody in Eb. injection Eb as _ Hd. by destruct reply.
  - injection Ecp as <- <-.
    change (preScan cls (s, l)) with (DScan_preScan (s, l)) in Eps.
    rewrite Hpre in Eps. injection Eps as <- <-.
    rewrite Hbody in Eb. injection Eb as <- <-.
    cbn [scan env trace] in Epo |- *.
    set (s3 := match reply with Ret d => set_data (Some d) s1 | _ => s1 end) in *.
    destruct (Hpost s3) as (l' & Hrun & Hj & Hr & Hm);
      [by destruct reply|by destruct reply|].
    rewrite Hrun in Epo. injection Epo as <- <- <-.
    eexists. split; [reflexivity|]. cbn [scan env trace].
    assert (paths s3 = paths s1) as Hpaths by (by destruct reply).
    split_and!.
    + by destruct reply.
    + by rewrite Hpaths.
    + rewrite Hpaths, trajectories_app. cbn [trajectories].
      rewrite trajectories_app, trajectories_handed.
      destruct reply; simpl; by rewrite ?app_nil_r.
    + rewrite count_app, !count_cons, count_app.
      rewrite count_postScan_handed. by destruct reply.
    + done.
    + done.
    + done.
Qed.

(** X11. A whole [run] of a differential scan in the ideal laboratory,
    for an engine that answers: [run] ends as the engine did (it raises
    the engine's exception, or returns), [postScan] has been called once,
    the trajectories handed out are the paths moved by the positions the
    positioners had, the paths of the scan object stay moved, every
    positioner has been asked once, in order, to move back with
    [wait=True], and is at its starting position, at rest. *)
Theorem DScan_run_in_the_lab (fuel : nat) (s : Scan) (l : lab) :
  head (replies l) <> Some Diverge ->
  exists w',
    exec (DScan_class (S fuel)) s l
    = (w', match head (replies l) with
           | Some (Raise x) => Raise x
           | _ => Ret ()
           end) /\
    positioners (scan w') = positioners s /\
    paths (scan w')
    = shifted (paths s) ((fun p => m_position (motor_of l p)) <$> positioners s) /\
    trajectories (trace w') = zip (positioners s) (paths (scan w')) /\
    count is_postScan (trace w') = 1%nat /\
    journal (env w')
    = journal l
        ++ ((fun p => (p, m_position (motor_of l p), true)) <$> positioners s) /\
    forall p, p ∈ positioners s ->
      position p (env w') = (env w', Ret (m_position (motor_of l p))) /\
      moving p (env w') = (env w', Ret false).
Proof.
  intros Hreply.
  destruct (differential_run fuel s l Hreply)
    as (w' & Hrun & Hps & Hpaths & Htraj & Hcount & Hj & _ & Hm).
  exists w'. split_and!; try done.
  intros p Hp. destruct (Hm p Hp) as [Hpos Hmov].
  by rewrite lab_position, lab_moving, Hpos, Hmov.
Qed.

(** X15. [DScan.preScan] moves the stored paths and nothing moves them
    back: in the ideal laboratory, a second [run] of the same scan
    object hands its positioners, as trajectories, the paths moved twice
    by the starting positions (the first run handed out the paths moved
    once), and stores them. *)
Theorem DScan_run_twice_shifts_twice (fuel : nat) (s : Scan) (l : lab) :
  head (replies l) <> Some Diverge ->
  head (tail (replies l)) <> Some Diverge ->
  exists w1 o1 w2 o2,
    exec (DScan_class (S fuel)) s l = (w1, o1) /\
    exec (DScan_class (S fuel)) (scan w1) (env w1) = (w2, o2) /\
    o1 <> Diverge /\ o2 <> Diverge /\
    trajectories (trace w1)
    = zip (positioners s)
        (shifted (paths s)
           ((fun p => m_position (motor_of l p)) <$> positioners s)) /\
    trajectories (trace w2)
    = zip (positioners s)
        (shifted
           (shifted (paths s)
              ((fun p => m_position (motor_of l p)) <$> positioners s))
           ((fun p => m_position (motor_of l p)) <$> positioners s)) /\
    paths (scan w2)
    = shifted
        (shifted (paths s)
           ((fun p => m_position (motor_of l p)) <$> positioners s))
        ((fun p => m_position (motor_of l p)) <$> positioners s).
Proof.
  intros Hr1 Hr2.
  destruct (differential_run fuel s l Hr1)
    as (w1 & Hrun1 & Hps1 & Hpaths1 & Htraj1 & _ & _ & Hrep1 & Hm1).
  rewrite <- Hrep1 in Hr2.
  destruct (differential_run fuel (scan w1) (env w1) Hr2)
    as (w2 & Hrun2 & _ & Hpaths2 & Htraj2 & _).
  assert (paths (scan w2)
          = shifted
              (shifted (paths s)
                 ((fun p => m_position (motor_of l p)) <$> positioners s))
              ((fun p => m_position (motor_of l p)) <$> positioners s))
    as Hpaths.
  { rewrite Hpaths2, Hpaths1, Hps1. f_equal.
    apply list_fmap_ext. intros i p Hp.
    apply Hm1. by eapply list_elem_of_lookup_2. }
  do 4 eexists. split; [exact Hrun1|]. split; [exact Hrun2|].
  split; [by destruct (head (replies l)) as [[]|]|].
  split; [by destruct (head (replies (env w1))) as [[]|]|].
  split; [by rewrite Htraj1, Hpaths1|].
  split; [by rewrite Htraj2, Hps1, Hpaths|].
  exact Hpaths.
Qed.

(** X16. [DScan.preScan] reads the positions before it assigns
    anything: if a position cannot be read, [run] raises that exception
    with the scan object exactly as it was (no start positions, the paths
    not shifted), nothing logged by the module, and no later hook
    called. *)
Theorem DScan_position_failure {Env : Type} `{!Devices Env} (fuel : nat)
    (s : Scan) (e e1 : Env) (x : exn) :
  collect position (positioners s) e = (e1, Raise x) ->
  exec (DScan_class fuel) s e
  = (mkWorld s e1 [Called CheckPaths; Returned CheckPaths PyNone;
                   Called PreScan; Raised PreScan x], Raise x).
Proof.
  intros Hpos. unfold exec, run, hook.
  rewrite (bind_ret _ _ _ _ _
             (traced_ret CheckPaths _ (checkPaths (DScan_class fuel))
                (mkWorld s e []) s e () eq_refl)).
  unfold with_, Scan_enter, hook. cbv zeta.
  assert (DScan_preScan (s, e) = ((s, e1), Raise x)) as Hpre.
  { unfold DScan_preScan.
    rewrite (bind_ret self _ (s, e) (s, e) s eq_refl).
    apply bind_raise. unfold device. cbn [fst snd]. by rewrite Hpos. }
  match goal with |- (_ ≫= _) ?w = _ =>
    by rewrite (bind_raise _ _ _ _ _
                  (traced_raise PreScan _ (preScan (DScan_class fuel)) w s e1 x
                     Hpre))
  end.
Qed.

Lemma exec_run {Env : Type} `{!Devices Env} (cls : ScanClass) (s : Scan)
    (e : Env) :
  exec cls s e = run cls (mkWorld s e []).
Proof. reflexivity. Qed.

(** [ScanND.__call__] with its positioners and paths computed: [run] on
    the scan object that holds them. *)
Lemma ScanND_call_ret {Env : Type} `{!Devices Env} (cls : ScanClass)
    (positioners : arg (arg Positioner)) (start stop : arg float) (npts : arg Z)
    (w : World) (pos : list Positioner) (paths : list (list float)) :
  call_paths positioners start stop npts = Ret (pos, paths) ->
  ScanND_call cls positioners start stop npts w
  = run cls (mkWorld (set_paths paths (set_positioners pos (scan w))) (env w)
               (trace w)).
Proof. unfold ScanND_call. by intros ->. Qed.

(** X17. A differential scan of one motor started through
    [ScanND.__call__] in the ideal laboratory, with [n] intervals,
    [-1 <= n < 2^63 - 1] (so that [n + 1] is a 64-bit signed integer),
    and an engine that answers: the one trajectory handed out is the
    linear path of [n + 1] points from [a] to [b] with every point moved
    by the position the motor had, whatever positioners and paths the
    scan object held before; the call ends as the engine did, and the
    motor is back at that position, at rest. *)
Theorem dscan_one_motor (fuel : nat) (m : Positioner) (a b : float) (n : Z)
    (s : Scan) (l : lab) :
  -1 <= n < 2 ^ 63 - 1 ->
  head (replies l) <> Some Diverge ->
  exists w' lin,
    ScanND_call (DScan_class (S fuel)) (One (One m)) (One a) (One b) (One n)
      (mkWorld s l [])
    = (w', match head (replies l) with
           | Some (Raise x) => Raise x
           | _ => Ret ()
           end) /\
    calcLinearPath a b (n + 1) = Ret lin /\
    trajectories (trace w')
    = [(m, (fun r => (r + m_position (motor_of l m))%float) <$> lin)] /\
    position m (env w') = (env w', Ret (m_position (motor_of l m))) /\
    moving m (env w') = (env w', Ret false).
Proof.
  intros Hn Hreply.
  destruct (linspace_length a b (n + 1)) as (lin & Hlin & _); [lia|].
  assert (call_paths (One (One m)) (One a) (One b) (One n)
          = Ret ([m], [lin])) as Hpaths.
  { assert ((fun k => np.int64 (k + 1)) <$> ensure_iterator (One n) = [n + 1])
      as Hcounts.
    { change (_ <$> ensure_iterator (One n)) with [np.int64 (n + 1)].
      assert (0 < 2 ^ 63) by done. rewrite int64_exact by lia. done. }
    unfold call_paths. cbv zeta. rewrite Hcounts. simpl.
    change (calculatePath a b [n + 1] 0 ≫= _)
      with (calculatePath a b [n + 1] 0 ≫= fun path => Ret ([m], [path])).
    rewrite calculatePath_single. unfold calcLinearPath. by rewrite Hlin. }
  destruct (differential_run fuel (set_paths [lin] (set_positioners [m] s)) l
              Hreply)
    as (w' & Hrun & Hps & Hsh & Htraj & _ & _ & _ & Hm).
  exists w', lin. split_and!.
  - rewrite (ScanND_call_ret _ _ _ _ _ _ _ _ Hpaths).
    rewrite exec_run in Hrun. exact Hrun.
  - done.
  - rewrite Htraj, Hsh. done.
  - rewrite lab_position. f_equal. f_equal. apply Hm. apply list_elem_of_here.
  - rewrite lab_moving. f_equal. f_equal. apply Hm. apply list_elem_of_here.
Qed.

(** ** More of the lifecycle and of the paths, on the bench *)

Lemma call_paths_groups_witness :
  ["x"; "y"; "z"]
  = groups_of (ensure_iterator (Many [One "x"; Many ["y"; "z"]]))
      (zip (zip (ensure_iterator (Many [0; 0]%float))
              (ensure_iterator (Many [1; 10]%float)))
         (seq 0 (length (ensure_iterator (Many [1; 2]))))) /\
  [[0; 0; 0; 1; 1; 1]%float; [0; 5; 10; 0; 5; 10]%float;
   [0; 5; 10; 0; 5; 10]%float]
  = paths_of (ensure_iterator (Many [One "x"; Many ["y"; "z"]]))
      ((fun n => np.int64 (n + 1)) <$> ensure_iterator (Many [1; 2]))
      (zip (zip (ensure_iterator (Many [0; 0]%float))
              (ensure_iterator (Many [1; 10]%float)))
         (seq 0 (length (ensure_iterator (Many [1; 2]))))).
Proof.
  apply (call_paths_groups (Many [One "x"; Many ["y"; "z"]])
           (Many [0; 0]%float) (Many [1; 10]%float) (Many [1; 2])).
  by vm_compute.
Defined.

Lemma ScanND_call_missing_group_witness :
  ScanND_call Scan_class (Many [One "x"]) (Many [0; 0]%float)
    (Many [1; 10]%float) (Many [1; 2]) (mkWorld one_motor_scan engine_up [])
  = (mkWorld one_motor_scan engine_up [], Raise IndexError).
Proof.
  apply (ScanND_call_missing_group Scan_class (Many [One "x"])
           (Many [0; 0]%float) (Many [1; 10]%float) (Many [1; 2])).
  - repeat constructor; lia.
  - by vm_compute.
  - simpl. lia.
Defined.

Lemma call_paths_any_lengths_witness :
  exists pos paths,
    call_paths (Many [One "x"; One "y"; One "z"]) (Many [0; 0; 0]%float)
      (Many [1; 10]%float) (Many [1; 2; 3; 4])
    = Ret (pos, paths) /\
    pos = ["x"; "y"] /\
    length paths = length pos /\
    Forall (fun path => length path = 120%nat) paths.
Proof.
  apply (call_paths_any_lengths (Many [One "x"; One "y"; One "z"])
           (Many [0; 0; 0]%float) (Many [1; 10]%float) (Many [1; 2; 3; 4])).
  - repeat constructor; lia.
  - by vm_compute.
  - simpl. lia.
Defined.

Lemma call_paths_without_points_witness :
  exists pos paths,
    call_paths (Many [One "x"; One "y"]) (Many [0; 0]%float)
      (Many [1; 10]%float) (Many [-1; 2])
    = Ret (pos, paths) /\
    length paths = length pos /\
    Forall (fun path => path = []) paths.
Proof.
  apply (call_paths_without_points (Many [One "x"; One "y"])
           (Many [0; 0]%float) (Many [1; 10]%float) (Many [-1; 2])).
  - repeat constructor; lia.
  - by vm_compute.
  - simpl. lia.
  - apply list_elem_of_here.
Defined.

Lemma path_ends_at_stop_witness :
  exists path,
    calculatePath 0%float 10%float [2; 3] 1 = Ret path /\
    last path = Some 10%float.
Proof.
  apply (path_ends_at_stop 0%float 10%float [2; 3] 1 3).
  - repeat constructor; lia.
  - by vm_compute.
  - reflexivity.
  - lia.
Defined.

Lemma different_steps_differ_witness :
  exists d, (d < length [2; 3])%nat /\
    path_of 0%float 10%float [2; 3] d !! 0%nat
    <> path_of 0%float 10%float [2; 3] d !! 1%nat.
Proof.
  apply (different_steps_differ (fun _ => (0%float, 10%float)) [2; 3] 0 1).
  - repeat constructor; lia.
  - by vm_compute.
  - intros [|[|d]] n lin Hd Hlin; simpl in Hd; [| |done];
      injection Hd as <-; vm_compute in Hlin; injection Hlin as <-;
      repeat (apply NoDup_cons; split); try apply NoDup_nil_2;
      intros Hin; trace_in;
      match goal with
      | H : @eq float ?a _ |- _ =>
          apply (f_equal (fun x => PrimFloat.eqb x a)) in H;
          vm_compute in H; discriminate H
      end.
  - vm_compute. lia.
  - vm_compute. lia.
  - lia.
Defined.

Lemma run_returns_in_order_witness :
  exists d,
    let s3 := (configure (DScan_class 1) (one_motor_scan, engine_up)).1.1 in
    trace (exec (DScan_class 1) one_motor_scan engine_up).1
    = entered ++ set_up
        ++ handed (zip (positioners s3) (paths s3))
        ++ [Called (StartRun (_run_id s3 + 1) (scan_args s3));
            Returned (StartRun (_run_id s3 + 1) (scan_args s3)) (PyData d);
            Called PostScan; Returned PostScan PyNone].
Proof.
  apply (run_returns_in_order (DScan_class 1) one_motor_scan engine_up).
  by vm_compute.
Defined.

Lemma run_changes_only_the_data_witness :
  (exists d, scan (exec AScan_class one_motor_scan engine_up).1
             = set_data (Some d) one_motor_scan) \/
  (scan (exec AScan_class one_motor_scan engine_up).1 = one_motor_scan /\
   (exec AScan_class one_motor_scan engine_up).2 <> Ret ()).
Proof.
  apply (run_changes_only_the_data AScan_class one_motor_scan engine_up).
  apply AScan_class_keeps_scan.
Defined.

Lemma DScan_run_in_the_lab_witness :
  exists w',
    exec (DScan_class 1) one_motor_scan engine_down
    = (w', Raise (Failure "engine")) /\
    paths (scan w') = [[5; 6; 7]%float] /\
    trajectories (trace w') = [("m", [5; 6; 7]%float)] /\
    journal (env w') = [("m", 5%float, true)] /\
    position "m" (env w') = (env w', Ret 5%float).
Proof.
  destruct (DScan_run_in_the_lab 0 one_motor_scan engine_down)
    as (w' & Hrun & Hps & Hpaths & Htraj & _ & Hj & Hm).
  - done.
  - exists w'. split; [exact Hrun|].
    assert (paths (scan w') = [[5; 6; 7]%float]) as Hp.
    { rewrite Hpaths. by vm_compute. }
    split; [exact Hp|]. split; [by rewrite Htraj, Hp|].
    split; [exact Hj|]. apply Hm. apply list_elem_of_here.
Defined.

Lemma AScan_log_failure_witness :
  exec AScan_class one_motor_scan broken_bench
  = (mkWorld one_motor_scan broken_bench
       [Called CheckPaths; Returned CheckPaths PyNone;
        Called PreScan; Raised PreScan (Failure "olog")],
     Raise (Failure "olog")).
Proof.
  apply (AScan_log_failure one_motor_scan broken_bench broken_bench
           (Failure "olog")).
  reflexivity.
Defined.

Lemma DScan_log_failure_witness :
  exec (DScan_class 1) one_motor_scan broken_bench
  = (mkWorld
       (set_paths (shifted (paths one_motor_scan) [5%float])
          (set_start_positions [5%float] one_motor_scan))
       broken_bench
       [Called CheckPaths; Returned CheckPaths PyNone;
        Called PreScan; Raised PreScan (Failure "olog")],
     Raise (Failure "olog")).
Proof.
  apply (DScan_log_failure 1 one_motor_scan broken_bench broken_bench
           broken_bench [5%float] (Failure "olog")).
  - by vm_compute.
  - reflexivity.
Defined.

Lemma DScan_postScan_stops_at_a_failed_move_witness :
  DScan_postScan 1 (three_motor_scan, broken_bench)
  = ((three_motor_scan,
      (move "m" 1%float true broken_bench).1), Raise (Failure "move")).
Proof.
  apply (DScan_postScan_stops_at_a_failed_move 1 three_motor_scan broken_bench
           (move "m" 1%float true broken_bench).1
           (move "m" 1%float true broken_bench).1
           [1; 2; 3]%float [("m", 1%float)] [("n", 3%float)] "stuck" 2%float
           (Failure "move")).
  - reflexivity.
  - reflexivity.
  - reflexivity.
  - reflexivity.
Defined.

Lemma DScan_run_twice_shifts_twice_witness :
  exists w1 o1 w2 o2,
    exec (DScan_class 1) one_motor_scan engine_up = (w1, o1) /\
    exec (DScan_class 1) (scan w1) (env w1) = (w2, o2) /\
    paths one_motor_scan = [[0; 1; 2]%float] /\
    trajectories (trace w1) = [("m", [5; 6; 7]%float)] /\
    trajectories (trace w2) = [("m", [10; 11; 12]%float)] /\
    paths (scan w2) = [[10; 11; 12]%float].
Proof.
  destruct (DScan_run_twice_shifts_twice 0 one_motor_scan engine_up)
    as (w1 & o1 & w2 & o2 & Hrun1 & Hrun2 & _ & _ & Ht1 & Ht2 & Hpaths).
  - done.
  - done.
  - exists w1, o1, w2, o2. split; [exact Hrun1|]. split; [exact Hrun2|].
    split; [reflexivity|].
    split; [rewrite Ht1; by vm_compute|].
    split; [rewrite Ht2; by vm_compute|].
    rewrite Hpaths. by vm_compute.
Defined.

Lemma DScan_position_failure_witness :
  exec (DScan_class 1) blind_motor_scan broken_bench
  = (mkWorld blind_motor_scan broken_bench
       [Called CheckPaths; Returned CheckPaths PyNone;
        Called PreScan; Raised PreScan (Failure "position")],
     Raise (Failure "position")).
Proof.
  apply (DScan_position_failure 1 blind_motor_scan broken_bench broken_bench
           (Failure "position")).
  by vm_compute.
Defined.

Lemma dscan_one_motor_witness :
  exists w' lin,
    ScanND_call (DScan_class 1) (One (One "m")) (One 0%float) (One 10%float)
      (One 5) (mkWorld Scan_init engine_up [])
    = (w', Ret ()) /\
    calcLinearPath 0%float 10%float (5 + 1) = Ret lin /\
    trajectories (trace w')
    = [("m", (fun r => (r + 5)%float) <$> lin)] /\
    position "m" (env w') = (env w', Ret 5%float) /\
    moving "m" (env w') = (env w', Ret false).
Proof.
  destruct (dscan_one_motor 0 "m" 0%float 10%float 5 Scan_init engine_up)
    as (w' & lin & Hrun & Hlin & Htraj & Hpos & Hmov).
  - by vm_compute.
  - done.
  - assert (m_position (motor_of engine_up "m") = 5%float) as Hm
      by (by vm_compute).
    rewrite Hm in Htraj, Hpos.
    exists w', lin. exact (conj Hrun (conj Hlin (conj Htraj (conj Hpos Hmov)))).
Defined.
